(** * Alexson: a lossless parser for a JSON superset

    A shallow embedding of [lexer.py], [syntax_tree.py] and [parser.py],
    followed by the properties of the scanner, the parser and the concrete
    syntax tree.

    Conventions of the embedding.
    - A Python [str] is a [string]; a character is an [ascii], read as the
      code point of the same number (U+0000 to U+00FF), so the model covers
      texts over that range.
    - A method that raises returns [Raise e]; the exceptions are the two the
      package defines and the built-in ones its code can run into.
    - The [while] loops whose bound is not structural take a [fuel]; running
      out of it is the separate outcome [OutOfFuel], which the entry points
      are proved never to produce.
    - A tree is a value: a container holds its children, and a node that
      the code reaches through two references (a value through [children]
      and through [dict] or [items]) is written at both places.
    - The limits of the interpreter (depth of recursion, memory) are not
      modelled. *)

From Stdlib Require Import ZArith List String Ascii Bool Lia SpecFloat.
From Stdlib Require Import Decimal DecimalString.
Import ListNotations.

Local Open Scope list_scope.
Local Open Scope string_scope.
Local Open Scope Z_scope.

(** ** Characters and strings *)

Definition quote : ascii := "034"%char.
Definition backslash : ascii := "092"%char.
Definition newline : ascii := "010"%char.
Definition tab : ascii := "009"%char.
Definition space : ascii := " "%char.

Definition nl : string := String newline "".

(** [lit s] is [s] with every apostrophe turned into a double quote: the
    way the Python literals of the tests are written down here. *)
Fixpoint lit (s : string) : string :=
  match s with
  | EmptyString => EmptyString
  | String c s' => String (if Ascii.eqb c "'"%char then quote else c) (lit s')
  end.

(** [str.isalpha] and [str.isdigit] on the code points below 256. *)
Definition isalpha (c : ascii) : bool :=
  let n := N_of_ascii c in
  (((65 <=? n) && (n <=? 90)) || ((97 <=? n) && (n <=? 122))
   || (n =? 170) || (n =? 181) || (n =? 186)
   || ((192 <=? n) && (n <=? 214)) || ((216 <=? n) && (n <=? 246))
   || (248 <=? n))%N.

Definition isdigit (c : ascii) : bool :=
  let n := N_of_ascii c in
  (((48 <=? n) && (n <=? 57)) || (n =? 178) || (n =? 179) || (n =? 185))%N.

(** [''.join(l)] *)
Definition join (l : list string) : string := fold_right String.append "" l.

(** [c * n] for a one-character string [c]. *)
Fixpoint repeat_char (c : ascii) (n : nat) : string :=
  match n with
  | O => ""
  | S n' => String c (repeat_char c n')
  end.

(** [str(n)] for a length. *)
Definition str_of_nat (n : nat) : string := NilEmpty.string_of_uint (Nat.to_uint n).

(** ** Outcomes *)

Inductive exn : Type :=
| AlexsonLexicalError (msg : string) (row col : Z)
| AlexsonParserException (msg : string) (row col : Z)
| AttributeError   (* [None.type] *)
| AssertionError
| NotImplementedError (msg : string)
| KeyError (key : string)
| IndexError
| ValueError
| TypeError.

Inductive result (A : Type) : Type :=
| Ok (a : A)
| Raise (e : exn)
| OutOfFuel.

Arguments Ok {A} a.
Arguments Raise {A} e.
Arguments OutOfFuel {A}.

Definition bind {A B : Type} (m : result A) (k : A -> result B) : result B :=
  match m with
  | Ok a => k a
  | Raise e => Raise e
  | OutOfFuel => OutOfFuel
  end.

Notation "x <- m ;; k" := (bind m (fun x => k))
  (at level 61, m at next level, right associativity).
Notation "' p <- m ;; k" := (bind m (fun x => let 'p := x in k))
  (at level 61, p pattern, m at next level, right associativity).

(** ** lexer.py *)

Module lexer.

Inductive TokenType : Type :=
| STRING | NUMBER | BOOLEAN | NULL | VARIABLE
| LBRACE | RBRACE | LBRACKET | RBRACKET | COLON | COMMA | COMMENT
| NEWLINES | SPACES | TABS.

Definition TokenType_eqb (a b : TokenType) : bool :=
  match a, b with
  | STRING, STRING | NUMBER, NUMBER | BOOLEAN, BOOLEAN | NULL, NULL
  | VARIABLE, VARIABLE | LBRACE, LBRACE | RBRACE, RBRACE
  | LBRACKET, LBRACKET | RBRACKET, RBRACKET | COLON, COLON | COMMA, COMMA
  | COMMENT, COMMENT | NEWLINES, NEWLINES | SPACES, SPACES | TABS, TABS => true
  | _, _ => false
  end.

Definition name (t : TokenType) : string :=
  match t with
  | STRING => "STRING" | NUMBER => "NUMBER" | BOOLEAN => "BOOLEAN"
  | NULL => "NULL" | VARIABLE => "VARIABLE" | LBRACE => "LBRACE"
  | RBRACE => "RBRACE" | LBRACKET => "LBRACKET" | RBRACKET => "RBRACKET"
  | COLON => "COLON" | COMMA => "COMMA" | COMMENT => "COMMENT"
  | NEWLINES => "NEWLINES" | SPACES => "SPACES" | TABS => "TABS"
  end.

Definition NON_JSON_TYPES (t : TokenType) : bool :=
  match t with
  | COMMENT | NEWLINES | SPACES | TABS => true
  | _ => false
  end.

Record Token : Type := mkToken { type : TokenType; value : string }.

(** [Token.__str__], used in the messages of the parser. *)
Definition Token_str (t : Token) : string :=
  match type t with
  | COLON | LBRACE | RBRACE | LBRACKET | RBRACKET | COMMA => name (type t)
  | SPACES | TABS => name (type t) ++ "*" ++ str_of_nat (String.length (value t))
  | NEWLINES => name (type t) ++ value t
  | _ => name (type t) ++ "(" ++ value t ++ ")"
  end.

(** The scanner keeps [token_id_position_map], a table from the identity of
    each token to the [(row, col)] at which it was finished.  Here the
    position travels with the token. *)
Abbreviation Position := (Z * Z)%type (only parsing).
Abbreviation PToken := (Token * (Z * Z))%type (only parsing).

(** The class [Lexer]. *)
Module Lexer.

(** The state of a [Lexer].  [rest] is [text[pos:]]: [current_char] is its
    first character, or [None] at the end of the input. *)
Record Lexer : Type := mkLexer { rest : string; row : Z; col : Z }.

Definition Lexer_init (text : string) : Lexer := mkLexer text 1 0.

Definition current_char (l : Lexer) : option ascii :=
  match rest l with
  | EmptyString => None
  | String c _ => Some c
  end.

Definition head (s : string) : option ascii :=
  match s with
  | EmptyString => None
  | String c _ => Some c
  end.

(** The row and column after [_next] has moved onto [cur]. *)
Definition moved (cur : option ascii) (row col : Z) : Z * Z :=
  match cur with
  | Some c => if Ascii.eqb c newline then (row + 1, 0) else (row, col + 1)
  | None => (row, col + 1)
  end.

Definition step (r : string) (row col : Z) : Lexer :=
  let '(row', col') := moved (head r) row col in mkLexer r row' col'.

(** [error] *)
Definition error {A : Type} (l : Lexer) (msg : string) : result A :=
  Raise (AlexsonLexicalError msg (row l) (col l)).

(** [_next]: with [pos == len(text)] already, the increment leaves the
    buffer and [error('End of input')] is raised before row and column
    change. *)
Definition _next (l : Lexer) : result Lexer :=
  match rest l with
  | EmptyString => error l "End of input"
  | String _ r => Ok (step r (row l) (col l))
  end.

Fixpoint next (length : nat) (l : Lexer) : result Lexer :=
  match length with
  | O => Ok l
  | S n => l' <- _next l ;; next n l'
  end.

(** [peek(length)]: [None] when [pos + length >= len(text)]. *)
Definition peek (length : nat) (l : Lexer) : option string :=
  if (String.length (rest l) <=? length)%nat then None
  else Some (substring 1 length (rest l)).

Definition peek_is (length : nat) (l : Lexer) (s : string) : bool :=
  match peek length l with
  | Some p => String.eqb p s
  | None => false
  end.

(** The loops of [whitespaces], [tabs], [newlines], [comment] and
    [variable]: [while current_char is not None and p(current_char)]. *)
Fixpoint scan (p : ascii -> bool) (acc : string) (r : string) (row col : Z)
  : string * Lexer :=
  match r with
  | EmptyString => (acc, mkLexer r row col)
  | String c r' =>
      if p c then
        let '(row', col') := moved (head r') row col in
        scan p (acc ++ String c "") r' row' col'
      else (acc, mkLexer r row col)
  end.

Definition scan_token (ty : TokenType) (p : ascii -> bool) (acc : string) (l : Lexer)
  : Token * Lexer :=
  let '(v, l') := scan p acc (rest l) (row l) (col l) in (mkToken ty v, l').

Definition whitespaces (l : Lexer) : Token * Lexer :=
  scan_token SPACES (fun c => Ascii.eqb c space) "" l.

Definition tabs (l : Lexer) : Token * Lexer :=
  scan_token TABS (fun c => Ascii.eqb c tab) "" l.

Definition newlines (l : Lexer) : Token * Lexer :=
  scan_token NEWLINES (fun c => Ascii.eqb c newline) "" l.

Definition comment (l : Lexer) : Token * Lexer :=
  scan_token COMMENT (fun c => negb (Ascii.eqb c newline)) "" l.

(** [number]: the condition reads
    [(current_char is not None and current_char.isdigit()) or current_char == '.']. *)
Definition number (l : Lexer) : Token * Lexer :=
  scan_token NUMBER (fun c => isdigit c || Ascii.eqb c ".") "" l.

(** [variable]: the first character is taken as it is. *)
Definition variable (l : Lexer) : result (Token * Lexer) :=
  match rest l with
  | EmptyString => error l "End of input"
  | String c _ =>
      l1 <- _next l ;;
      Ok (scan_token VARIABLE (fun c => isalpha c || isdigit c || Ascii.eqb c "_")
            (String c "") l1)
  end.

(** The loop of [string]. *)
Fixpoint string_loop (acc : string) (escaped : bool) (r : string) (row col : Z)
  : string * Lexer :=
  match r with
  | EmptyString => (acc, mkLexer r row col)
  | String c r' =>
      if Ascii.eqb c quote && negb escaped then (acc, mkLexer r row col)
      else
        let '(row', col') := moved (head r') row col in
        if Ascii.eqb c backslash then string_loop acc true r' row' col'
        else string_loop (acc ++ String c "") false r' row' col'
  end.

Definition string (l : Lexer) : result (Token * Lexer) :=
  l1 <- _next l ;;
  let '(v, l2) := string_loop "" false (rest l1) (row l1) (col l1) in
  l3 <- _next l2 ;;
  Ok (mkToken STRING v, l3).

Definition single (ty : TokenType) (v : String.string) (l : Lexer)
  : result (Token * Lexer) :=
  l' <- _next l ;; Ok (mkToken ty v, l').

Definition keyword (ty : TokenType) (v : String.string) (n : nat) (l : Lexer)
  : result (Token * Lexer) :=
  l' <- next n l ;; Ok (mkToken ty v, l').

(** The chain of tests of [next_token] on the current character [c]. *)
Definition dispatch (c : ascii) (l : Lexer) : result (Token * Lexer) :=
  if Ascii.eqb c "t" && peek_is 3 l "rue" then keyword BOOLEAN "true" 4 l
  else if Ascii.eqb c "f" && peek_is 4 l "alse" then keyword BOOLEAN "false" 5 l
  else if Ascii.eqb c "n" && peek_is 3 l "ull" then keyword NULL "null" 4 l
  else if Ascii.eqb c quote then string l
  else if Ascii.eqb c "#" then Ok (comment l)
  else if Ascii.eqb c newline then Ok (newlines l)
  else if Ascii.eqb c tab then Ok (tabs l)
  else if Ascii.eqb c space then Ok (whitespaces l)
  else if Ascii.eqb c "{" then single LBRACE "{" l
  else if Ascii.eqb c "}" then single RBRACE "}" l
  else if Ascii.eqb c "[" then single LBRACKET "[" l
  else if Ascii.eqb c "]" then single RBRACKET "]" l
  else if Ascii.eqb c ":" then single COLON ":" l
  else if Ascii.eqb c "," then single COMMA "," l
  else if isalpha c || Ascii.eqb c "_" then variable l
  else if isdigit c then Ok (number l)
  else error l ("Unexpected character " ++ String c "").

(** [next_token]; the token comes back with the position recorded for
    it, the row and column the scanner stands at once it is finished. *)
Definition next_token (l : Lexer) : result (option PToken * Lexer) :=
  match current_char l with
  | None => Ok (None, l)
  | Some c =>
      '(token, l') <- dispatch c l ;;
      Ok (Some (token, (row l', col l')), l')
  end.

(** [tokenize]: [while self.current_char is not None]. *)
Fixpoint tokenize_loop (fuel : nat) (l : Lexer) (tokens : list PToken)
  : result (list PToken) :=
  match current_char l with
  | None => Ok tokens
  | Some _ =>
      match fuel with
      | O => OutOfFuel
      | S fuel' =>
          '(token, l') <- next_token l ;;
          match token with
          | Some t => tokenize_loop fuel' l' (tokens ++ [t])%list
          | None => tokenize_loop fuel' l' tokens
          end
      end
  end.

Definition tokenize (text : String.string) : result (list PToken) :=
  tokenize_loop (String.length text) (Lexer_init text) [].

End Lexer.

End lexer.

(** ** syntax_tree.py *)

Module syntax_tree.

(** *** Floating-point values

    A Python [float] is an IEEE 754 binary64 number: a [spec_float] with a
    53-bit significand. *)
Definition float : Type := spec_float.
Definition prec : Z := 53.
Definition emax : Z := 1024.

Definition is_ascii_digit (c : ascii) : bool :=
  let n := N_of_ascii c in ((48 <=? n) && (n <=? 57))%N.

Definition digit_val (c : ascii) : Z := Z.of_N (N_of_ascii c) - 48.

(** A decimal numeral read so far: the digits as one integer [digits_int],
    how many of them stood after the dot, whether a dot and whether any
    digit was seen. *)
Record numeral : Type := mkNumeral
  { digits_int : Z; frac_len : Z; seen_dot : bool; seen_digit : bool }.

Fixpoint read_numeral (s : string) (a : numeral) : option numeral :=
  match s with
  | EmptyString => if seen_digit a then Some a else None
  | String c s' =>
      if is_ascii_digit c then
        read_numeral s'
          (mkNumeral (10 * digits_int a + digit_val c)
             (if seen_dot a then frac_len a + 1 else frac_len a)
             (seen_dot a) true)
      else if Ascii.eqb c "." && negb (seen_dot a) then
        read_numeral s' (mkNumeral (digits_int a) (frac_len a) true (seen_digit a))
      else None
  end.

(** The binary64 number nearest to [n / 10 ^ k] (ties to even): the
    quotient is taken with more than 54 significant bits and one more bit
    that records a non-zero remainder, then rounded once. *)
Definition round_decimal (n k : Z) : float :=
  let d := 10 ^ k in
  let s := Z.max 0 (Z.log2 d + 58 - Z.log2 n) in
  let q := (n * 2 ^ s) / d in
  let sticky := if (n * 2 ^ s) mod d =? 0 then 0 else 1 in
  binary_normalize prec emax (2 * q + sticky) (- s - 1) false.

(** [float(s)] for the strings a NUMBER token can hold, made of digits and
    dots: [None] stands for [ValueError].  Signs, exponents, underscores,
    blanks and the words [inf] and [nan], which [float] also reads, are
    outside this alphabet and are not modelled. *)
Definition float_of_str (s : string) : option float :=
  match read_numeral s (mkNumeral 0 0 false false) with
  | Some a => Some (round_decimal (digits_int a) (frac_len a))
  | None => None
  end.

(** The literal [1e-6]. *)
Definition tolerance : float := S754_finite false 0x10c6f7a0b5ed8d (-72).

(** *** [float] on any string

    [float(s)] strips the blanks around [s], takes out the underscores
    that stand between two digits, reads a sign and then [inf],
    [infinity] or [nan] in any case, or a decimal numeral with an optional
    exponent, and rounds to the nearest binary64 number.  It raises
    [ValueError] on any other string, and returns an infinity where the
    numeral is too large. *)

(** The blanks that are stripped: tab to carriage return, the space,
    U+0085 and U+00A0. *)
Definition float_space (c : ascii) : bool :=
  let n := N_of_ascii c in
  (((9 <=? n) && (n <=? 13)) || (n =? 32) || (n =? 133) || (n =? 160))%N.

Fixpoint lstrip (s : string) : string :=
  match s with
  | EmptyString => EmptyString
  | String c s' => if float_space c then lstrip s' else s
  end.

Fixpoint rstrip (s : string) : string :=
  match s with
  | EmptyString => EmptyString
  | String c s' =>
      match rstrip s' with
      | EmptyString => if float_space c then EmptyString else String c EmptyString
      | r => String c r
      end
  end.

Definition is_underscore (c : option ascii) : bool :=
  match c with
  | Some c => Ascii.eqb c "_"
  | None => false
  end.

Definition is_digit_before (c : option ascii) : bool :=
  match c with
  | Some c => is_ascii_digit c
  | None => false
  end.

(** An underscore is allowed after a digit and before a digit only;
    [prev] is the character before [s]. *)
Fixpoint drop_underscores (prev : option ascii) (s : string) : option string :=
  match s with
  | EmptyString => if is_underscore prev then None else Some EmptyString
  | String c s' =>
      if Ascii.eqb c "_" then
        if is_digit_before prev then drop_underscores (Some c) s' else None
      else if is_underscore prev && negb (is_ascii_digit c) then None
      else match drop_underscores (Some c) s' with
           | Some r => Some (String c r)
           | None => None
           end
  end.

(** The sign in front, if any, and what follows it. *)
Definition read_sign (s : string) : bool * string :=
  match s with
  | String c s' =>
      if Ascii.eqb c "-" then (true, s')
      else if Ascii.eqb c "+" then (false, s')
      else (false, s)
  | EmptyString => (false, s)
  end.

Definition lower (c : ascii) : ascii :=
  let n := N_of_ascii c in
  if ((65 <=? n) && (n <=? 90))%N then ascii_of_N (n + 32) else c.

Fixpoint lower_str (s : string) : string :=
  match s with
  | EmptyString => EmptyString
  | String c s' => String (lower c) (lower_str s')
  end.

(** The digits and dots in front of [s], and what follows them. *)
Fixpoint span_mantissa (s : string) : string * string :=
  match s with
  | EmptyString => (EmptyString, EmptyString)
  | String c s' =>
      if is_ascii_digit c || Ascii.eqb c "." then
        let '(m, r) := span_mantissa s' in (String c m, r)
      else (EmptyString, s)
  end.

(** The value of a string of digits, which is not empty. *)
Fixpoint read_digits (s : string) (acc : Z) (seen : bool) : option Z :=
  match s with
  | EmptyString => if seen then Some acc else None
  | String c s' =>
      if is_ascii_digit c then read_digits s' (10 * acc + digit_val c) true
      else None
  end.

(** The exponent: nothing, or [e] or [E], a sign if any, and digits. *)
Definition read_exponent (s : string) : option Z :=
  match s with
  | EmptyString => Some 0
  | String c s' =>
      if Ascii.eqb (lower c) "e" then
        let '(neg, ds) := read_sign s' in
        match read_digits ds 0 false with
        | Some e => Some (if neg then - e else e)
        | None => None
        end
      else None
  end.

(** The binary64 number nearest to [n * 10 ^ (e - k)], with its sign. *)
Definition round_scaled (neg : bool) (n k e : Z) : float :=
  let x := e - k in
  let f := if 0 <=? x then round_decimal (n * 10 ^ x) 0
           else round_decimal n (- x) in
  if neg then SFopp f else f.

(** [float(s)]; [None] stands for [ValueError]. *)
Definition py_float (s : string) : option float :=
  match drop_underscores None (rstrip (lstrip s)) with
  | None => None
  | Some s1 =>
      let '(neg, s2) := read_sign s1 in
      let w := lower_str s2 in
      if String.eqb w "inf" || String.eqb w "infinity" then Some (S754_infinity neg)
      else if String.eqb w "nan" then Some S754_nan
      else
        let '(m, r) := span_mantissa s2 in
        match read_numeral m (mkNumeral 0 0 false false), read_exponent r with
        | Some a, Some e => Some (round_scaled neg (digits_int a) (frac_len a) e)
        | _, _ => None
        end
  end.

(** *** Nodes

    One constructor for each concrete class.  [String_] and [Variable_]
    are the classes [String] and [Variable].  [primary_obj] of a [Root],
    a cached reference to one of its children, is the position of that
    child.  The [dict] of an [Object] keeps the order of insertion. *)
Inductive AlexsonNode : Type :=
| Root (children : list AlexsonNode) (primary_obj : option nat)
| Object (children : list AlexsonNode)
         (dict : list (string * (AlexsonNode * AlexsonNode)))
| Array (children : list AlexsonNode) (items : list AlexsonNode)
| String_ (value : string)
| Number (value : float) (original_value : string)
| Variable_ (value : string)
| Boolean (value : bool)
| Null
| Comment (comment : string)
| WhiteSpace
| NewLine
| Tab
| Colon
| Comma
| LBrace
| RBrace
| LBracket
| RBracket.

Definition Dict : Type := list (string * (AlexsonNode * AlexsonNode)).

(** [Number(value)] for a [str]: [float(value)] may raise, and
    [str(value)] is [value].  The [float] and [int] arguments that the
    annotation of [__init__] also allows are not modelled. *)
Definition mkNumber (value : string) : result AlexsonNode :=
  match py_float value with
  | Some f => Ok (Number f value)
  | None => Raise ValueError
  end.

Definition isinstance_BlockNode (n : AlexsonNode) : bool :=
  match n with
  | Root _ _ | Object _ _ | Array _ _ => true
  | _ => false
  end.

(** [value.replace('"', '\"')] *)
Fixpoint escape (s : string) : string :=
  match s with
  | EmptyString => EmptyString
  | String c s' =>
      if Ascii.eqb c quote then String backslash (String quote (escape s'))
      else String c (escape s')
  end.

Fixpoint to_alexson (n : AlexsonNode) : string :=
  match n with
  | Root children _ | Object children _ | Array children _ =>
      join (map to_alexson children)
  | String_ v => String quote (escape v ++ String quote "")
  | Number _ original_value => original_value
  | Variable_ v => v
  | Boolean b => if b then "true" else "false"
  | Null => "null"
  | Comment c => c
  | WhiteSpace => " "
  | NewLine => nl
  | Tab => String tab ""
  | Colon => ":"
  | Comma => ","
  | LBrace => "{"
  | RBrace => "}"
  | LBracket => "["
  | RBracket => "]"
  end.

(** *** Equality, [__eq__] *)

(** [l1 == l2] on lists. *)
Definition list_eq {A : Type} (eq : A -> A -> bool) : list A -> list A -> bool :=
  fix go (l1 l2 : list A) : bool :=
    match l1, l2 with
    | [], [] => true
    | x :: l1', y :: l2' => eq x y && go l1' l2'
    | _, _ => false
    end.

Fixpoint dict_get {V : Type} (d : list (string * V)) (key : string) : option V :=
  match d with
  | [] => None
  | (k, v) :: d' => if String.eqb k key then Some v else dict_get d' key
  end.

(** [d[key] = v]: an existing key keeps its place. *)
Fixpoint dict_set {V : Type} (d : list (string * V)) (key : string) (v : V)
  : list (string * V) :=
  match d with
  | [] => [(key, v)]
  | (k, v0) :: d' =>
      if String.eqb k key then (k, v) :: d' else (k, v0) :: dict_set d' key v
  end.

Definition dict_contains {V : Type} (d : list (string * V)) (key : string) : bool :=
  match dict_get d key with
  | Some _ => true
  | None => false
  end.

(** [d1 == d2] on dictionaries whose values are pairs of nodes. *)
Definition dict_eq (eq : AlexsonNode -> AlexsonNode -> bool) (d1 d2 : Dict) : bool :=
  (List.length d1 =? List.length d2)%nat
  && forallb
       (fun e =>
          match e with
          | (k, (kn, vn)) =>
              match dict_get d2 k with
              | Some (kn', vn') => eq kn kn' && eq vn vn'
              | None => false
              end
          end) d1.

(** [a == b]: [BlockNode.__eq__] with the overrides of [Object] and
    [Array], [Literal.__eq__], [Number.__eq__], [NonEditable.__eq__] and
    [Comment.__eq__].  When Python compares lists, tuples and dictionaries
    it takes an object for equal to itself without calling [__eq__]; values
    have no identity, so [node_eq] always calls it.  The two differ only on
    a [Number] whose value is infinite or not a number, the one case where
    [__eq__] is not reflexive. *)
Fixpoint node_eq (a b : AlexsonNode) {struct a} : bool :=
  match a, b with
  | Root ca _, Root cb _ => list_eq node_eq ca cb
  | Object ca da, Object cb db => list_eq node_eq ca cb && dict_eq node_eq da db
  | Array ca ia, Array cb ib => list_eq node_eq ca cb && list_eq node_eq ia ib
  | String_ x, String_ y => String.eqb x y
  | Number x _, Number y _ => SFltb (SFabs (SFsub prec emax x y)) tolerance
  | Variable_ x, Variable_ y => String.eqb x y
  | Boolean x, Boolean y => Bool.eqb x y
  | Null, Null => true
  | Comment x, Comment y => String.eqb x y
  | WhiteSpace, WhiteSpace | NewLine, NewLine | Tab, Tab
  | Colon, Colon | Comma, Comma | LBrace, LBrace | RBrace, RBrace
  | LBracket, LBracket | RBracket, RBracket => true
  | _, _ => false
  end.

(** *** Indexed access *)

Inductive Key : Type :=
| KStr (s : string)
| KInt (i : Z).

(** [l.index(x)]: the first position whose element is [x] or [== x].  With
    [x] among the elements, as it is in [Object.__setitem__], that is the
    first position whose element is [== x] as soon as [x == x]; see
    [node_eq] for the one exception. *)
Fixpoint index (l : list AlexsonNode) (x : AlexsonNode) : option nat :=
  match l with
  | [] => None
  | y :: l' =>
      if node_eq y x then Some O
      else match index l' x with
           | Some i => Some (S i)
           | None => None
           end
  end.

(** [l[i] = v] for a position inside the list. *)
Fixpoint update {A : Type} (l : list A) (i : nat) (v : A) : list A :=
  match l, i with
  | [], _ => []
  | _ :: l', O => v :: l'
  | x :: l', S i' => x :: update l' i' v
  end.

(** The position a Python index [i] denotes in a list of length [n]. *)
Definition py_index (n : nat) (i : Z) : option nat :=
  let j := if i <? 0 then i + Z.of_nat n else i in
  if (0 <=? j) && (j <? Z.of_nat n) then Some (Z.to_nat j) else None.

(** [Object.__getitem__] and [Array.__getitem__] *)
Definition getitem (n : AlexsonNode) (key : Key) : result AlexsonNode :=
  match n, key with
  | Object _ dict, KStr k =>
      match dict_get dict k with
      | Some (_, v) => Ok v
      | None => Raise (KeyError k)
      end
  | Object _ _, KInt _ => Raise (KeyError "")
  | Array _ items, KInt i =>
      match py_index (List.length items) i with
      | Some j => match nth_error items j with
                  | Some v => Ok v
                  | None => Raise IndexError
                  end
      | None => Raise IndexError
      end
  | _, _ => Raise TypeError
  end.

(** [Object.__setitem__] and [Array.__setitem__], returning the node as the
    assignment leaves it. *)
Definition setitem (n : AlexsonNode) (key : Key) (value : AlexsonNode)
  : result AlexsonNode :=
  match n, key with
  | Object children dict, KStr k =>
      match dict_get dict k with
      | Some (key_node, old) =>
          match index children old with
          | Some i => Ok (Object (update children i value)
                                 (dict_set dict k (key_node, value)))
          | None => Raise ValueError
          end
      | None => Raise (NotImplementedError "Cannot add new key to object yet...")
      end
  | Object _ _, KInt _ =>
      Raise (NotImplementedError "Cannot add new key to object yet...")
  | Array children items, KInt i =>
      match py_index (List.length items) i with
      | Some j => Ok (Array children (update items j value))
      | None => Raise IndexError
      end
  | _, _ => Raise TypeError
  end.

(** [Root.get_primary_obj]: the first child that is a [BlockNode], kept in
    [primary_obj] once found. *)
Fixpoint find_block (l : list AlexsonNode) : option nat :=
  match l with
  | [] => None
  | c :: l' =>
      if isinstance_BlockNode c then Some O
      else match find_block l' with
           | Some i => Some (S i)
           | None => None
           end
  end.

Definition get_primary_obj (children : list AlexsonNode) (primary_obj : option nat)
  : option nat :=
  match primary_obj with
  | Some i => Some i
  | None => find_block children
  end.

(** [Root.__getitem__] *)
Definition Root_getitem (n : AlexsonNode) (key : Key) : result AlexsonNode :=
  match n with
  | Root children primary_obj =>
      match get_primary_obj children primary_obj with
      | Some i =>
          match nth_error children i with
          | Some c => getitem c key
          | None => Raise TypeError
          end
      | None => Raise TypeError
      end
  | _ => Raise TypeError
  end.

(** [Root.__setitem__]: the assignment goes to the primary container, which
    is the very node standing among the children. *)
Definition Root_setitem (n : AlexsonNode) (key : Key) (value : AlexsonNode)
  : result AlexsonNode :=
  match n with
  | Root children primary_obj =>
      match get_primary_obj children primary_obj with
      | Some i =>
          match nth_error children i with
          | Some c => c' <- setitem c key value ;;
                      Ok (Root (update children i c') (Some i))
          | None => Raise TypeError
          end
      | None => Raise TypeError
      end
  | _ => Raise TypeError
  end.

(** [isinstance(n, NonJson)]: a comment or a blank. *)
Definition isinstance_NonJson (n : AlexsonNode) : bool :=
  match n with
  | Comment _ | WhiteSpace | NewLine | Tab => true
  | _ => false
  end.

(** [is_array]: [BlockNode.is_array] raises [NotImplementedError], and
    [Object] and [Array] do not override it; [Root.is_array] asks the
    primary container; the other classes have no such method. *)
Fixpoint is_array (n : AlexsonNode) : result bool :=
  match n with
  | Root children primary_obj =>
      match get_primary_obj children primary_obj with
      | Some i =>
          (fix child (l : list AlexsonNode) (i : nat) {struct l} : result bool :=
             match l, i with
             | [], _ => Raise TypeError
             | c :: _, O => is_array c
             | _ :: l', S i' => child l' i'
             end) children i
      | None => Raise AttributeError
      end
  | Object _ _ | Array _ _ => Raise (NotImplementedError "")
  | _ => Raise AttributeError
  end.

(** [is_object], written as [is_array] is. *)
Fixpoint is_object (n : AlexsonNode) : result bool :=
  match n with
  | Root children primary_obj =>
      match get_primary_obj children primary_obj with
      | Some i =>
          (fix child (l : list AlexsonNode) (i : nat) {struct l} : result bool :=
             match l, i with
             | [], _ => Raise TypeError
             | c :: _, O => is_object c
             | _ :: l', S i' => child l' i'
             end) children i
      | None => Raise AttributeError
      end
  | Object _ _ | Array _ _ => Raise (NotImplementedError "")
  | _ => Raise AttributeError
  end.

End syntax_tree.

(** ** parser.py *)

Module parser.

Import lexer syntax_tree.

Local Open Scope list_scope.

(** Modelled from the spec: [config.py], which declares the class [Config],
    is not among the sources.  The parser reads two attributes of it, the
    two booleans the specification lists for the configuration. *)
Record Config : Type := mkConfig
  { allow_trailing_comma : bool; allow_comments : bool }.

(** The state of an [AlexsonParser] is [tokens[_token_index:]], the tokens
    from the current one on: [current()] is the first of them, or [None],
    and [advance()] drops it. *)
Definition current (ts : list PToken) : option PToken := List.hd_error ts.

Definition advance (ts : list PToken) : list PToken := List.tl ts.

(** [get_token_pos] *)
Definition get_token_pos (t : option PToken) : Position :=
  match t with
  | None => (-1, -1)
  | Some (_, pos) => pos
  end.

Definition ParserException {A : Type} (msg : string) (pos : Position) : result A :=
  Raise (AlexsonParserException msg (fst pos) (snd pos)).

(** [self.current().type]: an [AttributeError] when there is no token left. *)
Definition current_type (ts : list PToken) : result TokenType :=
  match current ts with
  | None => Raise AttributeError
  | Some (t, _) => Ok (type t)
  end.

Definition unexpected {A : Type} (t : PToken) (tail : string) : result A :=
  ParserException ("Unexpected token " ++ Token_str (fst t) ++ tail)%string (snd t).

Section WithConfig.

Variable config : Config.

(** The nodes one formatting token stands for. *)
Definition non_json_nodes (t : Token) : list AlexsonNode :=
  match type t with
  | NEWLINES => List.repeat NewLine (String.length (value t))
  | SPACES => List.repeat WhiteSpace (String.length (value t))
  | TABS => List.repeat Tab (String.length (value t))
  | COMMENT => if allow_comments config then [Comment (value t)] else []
  | _ => []
  end.

(** The loop of [_parse_non_json]: its condition reads the type of the
    current token without asking whether there is one. *)
Fixpoint non_json_loop (ts : list PToken) (empty_spaces : list AlexsonNode)
  : result (list AlexsonNode * list PToken) :=
  match ts with
  | [] => Raise AttributeError
  | (t, _) :: ts' =>
      if NON_JSON_TYPES (type t)
      then non_json_loop ts' (empty_spaces ++ non_json_nodes t)
      else Ok (empty_spaces, ts)
  end.

Definition _parse_non_json (ts : list PToken)
  : result (list AlexsonNode * list PToken) :=
  match ts with
  | [] => Ok ([], ts)
  | _ :: _ => non_json_loop ts []
  end.

(** [parse_value], [_parse_obj] and [_parse_array] with the loops of the
    last two.  [obj_loop] and [array_loop] start at the test of the
    [while]; they carry the [children] and the [dict] or the [items] built
    so far. *)
Fixpoint parse_value (fuel : nat) (ts : list PToken) {struct fuel}
  : result (AlexsonNode * list PToken) :=
  match fuel with
  | O => OutOfFuel
  | S fuel' =>
      match ts with
      | [] => Raise AttributeError
      | (t, pos) :: _ =>
          match type t with
          | STRING => Ok (String_ (value t), advance ts)
          | NUMBER =>
              match float_of_str (value t) with
              | Some f => Ok (Number f (value t), advance ts)
              | None => ParserException ("Invalid number value " ++ value t)%string pos
              end
          | NULL => Ok (Null, advance ts)
          | BOOLEAN =>
              if String.eqb (value t) "true" then Ok (Boolean true, advance ts)
              else if String.eqb (value t) "false" then Ok (Boolean false, advance ts)
              else ParserException ("Invalid boolean value " ++ value t)%string pos
          | VARIABLE => Ok (Variable_ (value t), advance ts)
          | LBRACE => _parse_obj fuel' ts
          | LBRACKET => _parse_array fuel' ts
          | _ => unexpected (t, pos) ""
          end
      end
  end

with _parse_obj (fuel : nat) (ts : list PToken) {struct fuel}
  : result (AlexsonNode * list PToken) :=
  match fuel with
  | O => OutOfFuel
  | S fuel' =>
      match ts with
      | [] => Raise AttributeError
      | (t, pos) :: _ =>
          if negb (TokenType_eqb (type t) LBRACE)
          then unexpected (t, pos) (lit ", expecting '{' here.")
          else obj_loop fuel' [LBrace] [] (advance ts)
      end
  end

with obj_loop (fuel : nat) (children : list AlexsonNode) (dict : Dict)
       (ts : list PToken) {struct fuel}
  : result (AlexsonNode * list PToken) :=
  match fuel with
  | O => OutOfFuel
  | S fuel' =>
      ty <- current_type ts ;;
      if TokenType_eqb ty RBRACE
      then Ok (Object (children ++ [RBrace]) dict, advance ts)
      else
        (* empty spaces before the key *)
        '(ws, ts) <- _parse_non_json ts ;;
        let children := children ++ ws in
        (* the key *)
        match ts with
        | [] => Raise AttributeError
        | (k, kpos) :: _ =>
            if negb (TokenType_eqb (type k) STRING) then unexpected (k, kpos) ""
            else
              let key := value k in
              let children := children ++ [String_ key] in
              let ts := advance ts in
              '(ws, ts) <- _parse_non_json ts ;;
              let children := children ++ ws in
              (* ':' *)
              match ts with
              | [] => Raise AttributeError
              | (c, cpos) :: _ =>
                  if negb (TokenType_eqb (type c) COLON) then unexpected (c, cpos) ""
                  else
                    let children := children ++ [Colon] in
                    let ts := advance ts in
                    '(ws, ts) <- _parse_non_json ts ;;
                    let children := children ++ ws in
                    (* the value *)
                    '(v, ts) <- parse_value fuel' ts ;;
                    let children := children ++ [v] in
                    if dict_contains dict key
                    then ParserException ("Duplicate key " ++ key)%string
                           (get_token_pos (current ts))
                    else
                      let dict := dict_set dict key (String_ key, v) in
                      '(ws, ts) <- _parse_non_json ts ;;
                      let children := children ++ ws in
                      (* ',' *)
                      match ts with
                      | [] => Raise AttributeError
                      | (s, spos) :: _ =>
                          '(children, ts) <-
                            (if TokenType_eqb (type s) COMMA
                             then Ok (children ++ [Comma], advance ts)
                             else if negb (TokenType_eqb (type s) RBRACE)
                             then unexpected (s, spos) ""
                             else Ok (children, ts)) ;;
                          '(ws, ts) <- _parse_non_json ts ;;
                          let children := children ++ ws in
                          if allow_trailing_comma config then
                            ty <- current_type ts ;;
                            if TokenType_eqb ty RBRACE
                            then Ok (Object (children ++ [RBrace]) dict, advance ts)
                            else obj_loop fuel' children dict ts
                          else obj_loop fuel' children dict ts
                      end
              end
        end
  end

with _parse_array (fuel : nat) (ts : list PToken) {struct fuel}
  : result (AlexsonNode * list PToken) :=
  match fuel with
  | O => OutOfFuel
  | S fuel' => array_loop fuel' [LBracket] [] (advance ts)
  end

with array_loop (fuel : nat) (children items : list AlexsonNode)
       (ts : list PToken) {struct fuel}
  : result (AlexsonNode * list PToken) :=
  match fuel with
  | O => OutOfFuel
  | S fuel' =>
      ty <- current_type ts ;;
      if TokenType_eqb ty RBRACKET
      then Ok (Array (children ++ [RBracket]) items, advance ts)
      else
        '(ws, ts) <- _parse_non_json ts ;;
        let children := children ++ ws in
        '(v, ts) <- parse_value fuel' ts ;;
        let children := children ++ [v] in
        let items := items ++ [v] in
        '(ws, ts) <- _parse_non_json ts ;;
        let children := children ++ ws in
        match ts with
        | [] => Raise AttributeError
        | (s, spos) :: _ =>
            '(children, ts) <-
              (if TokenType_eqb (type s) COMMA
               then Ok (children ++ [Comma], advance ts)
               else if negb (TokenType_eqb (type s) RBRACKET)
               then unexpected (s, spos) (lit ", expecting ',' or ']' here.")
               else Ok (children, ts)) ;;
            array_loop fuel' children items ts
        end
  end.

(** [parse], on the tokens the scanner produced. *)
Definition parse_tokens (fuel : nat) (ts : list PToken) : result AlexsonNode :=
  match current ts with
  | None => Ok (Root [] None)
  | Some _ =>
      '(ws, ts) <- _parse_non_json ts ;;
      let children := ws in
      match current ts with
      | None => Ok (Root children None)
      | Some (t, pos) =>
          '(c, ts) <-
            (if TokenType_eqb (type t) LBRACE then _parse_obj fuel ts
             else if TokenType_eqb (type t) LBRACKET then _parse_array fuel ts
             else unexpected (t, pos)
                    ", expecting Object or Array at the top level of the alexson string") ;;
          let children := children ++ [c] in
          '(ws, ts) <- _parse_non_json ts ;;
          let children := children ++ ws in
          match current ts with
          | None => Ok (Root children None)
          | Some _ => Raise AssertionError
          end
      end
  end.

(** Fuel that is enough for a token list. *)
Definition fuel_for (ts : list PToken) : nat := 3 * List.length ts + 3.

(** [AlexsonParser(text, config).parse()]: the constructor runs the
    scanner. *)
Definition parse (text : string) : result AlexsonNode :=
  tokens <- Lexer.tokenize text ;;
  parse_tokens (fuel_for tokens) tokens.

End WithConfig.

End parser.

(** ** What the properties are stated with *)

Import lexer syntax_tree parser.

(** The text a token was scanned from, when nothing was lost on the way:
    the quotes put back around a string and a backslash before each quote
    inside, one character for each character of a run of blanks. *)
Definition token_src (t : Token) : string :=
  match type t with
  | STRING => String quote (escape (value t) ++ String quote "")
  | NEWLINES => repeat_char newline (String.length (value t))
  | SPACES => repeat_char space (String.length (value t))
  | TABS => repeat_char tab (String.length (value t))
  | NULL => "null"
  | LBRACE => "{"
  | RBRACE => "}"
  | LBRACKET => "["
  | RBRACKET => "]"
  | COLON => ":"
  | COMMA => ","
  | NUMBER | BOOLEAN | VARIABLE | COMMENT => value t
  end.

Definition tokens_src (ts : list PToken) : string :=
  join (map (fun t => token_src (fst t)) ts).

Definition nodes_src (l : list AlexsonNode) : string := join (map to_alexson l).

(** Where a character of the text stands: outside strings and comments,
    inside a string, or inside a comment. *)
Inductive region : Type :=
| Code
| InString
| InComment.

(** Every backslash inside a string of the text stands immediately before
    a double quote.  The text is read from the region [r] on: a double
    quote opens and closes a string, [#] opens a comment and the end of
    the line closes it. *)
Fixpoint escapes_ok (r : region) (s : string) : bool :=
  match s with
  | EmptyString => true
  | String c s' =>
      match r with
      | Code =>
          if Ascii.eqb c quote then escapes_ok InString s'
          else if Ascii.eqb c "#" then escapes_ok InComment s'
          else escapes_ok Code s'
      | InComment =>
          if Ascii.eqb c newline then escapes_ok Code s'
          else escapes_ok InComment s'
      | InString =>
          if Ascii.eqb c backslash then
            match s' with
            | String c' s'' => Ascii.eqb c' quote && escapes_ok InString s''
            | EmptyString => false
            end
          else if Ascii.eqb c quote then escapes_ok Code s'
          else escapes_ok InString s'
      end
  end.

(** A character that opens neither a string nor a comment. *)
Definition plain (c : ascii) : bool :=
  negb (Ascii.eqb c quote) && negb (Ascii.eqb c "#").

Fixpoint string_forall (p : ascii -> bool) (s : string) : bool :=
  match s with
  | EmptyString => true
  | String c s' => p c && string_forall p s'
  end.

(** Comments are kept, whatever the other option. *)
Definition keeps_comments (config : Config) : Prop := allow_comments config = true.

(** A token that is a blank or a comment. *)
Definition blank (t : PToken) : Prop := NON_JSON_TYPES (type (fst t)) = true.


(** The text of [test_parser] in [test/test_parser.py]. *)
Definition test_parser_text : string :=
  lit "{" ++ nl ++
  lit "    'nav_buoy': {" ++ nl ++
  lit "        'baseId': 'base_campaign \'_objective'," ++ nl ++
  lit "        'defaultName':'Nav Buoy', # used if name=null in addCustomEntity() " ++ nl ++
  lit "        'tags':['nav_buoy', 'neutrino_high', 'objective']," ++ nl ++
  lit "        'layers':[STATIONS], # what layer(s) to render in. See CampaignEngineLayers.java for possible values" ++ nl ++
  lit "    }" ++ nl ++
  lit "}".


(** What is written so far followed by what is still to be read. *)
Definition pending (children : list AlexsonNode) (ts : list PToken) : string :=
  nodes_src children ++ tokens_src ts.


(** What holds of an outcome that is not [OutOfFuel]. *)
Definition outcome {A : Type} (r : result A) (Q : A -> Prop) : Prop :=
  match r with
  | Ok a => Q a
  | Raise _ => True
  | OutOfFuel => False
  end.


Definition shorter (n : nat) (x : AlexsonNode * list PToken) : Prop :=
  (List.length (snd x) < n)%nat.

Definition not_longer (n : nat) (x : list AlexsonNode * list PToken) : Prop :=
  (List.length (snd x) <= n)%nat.


(** The first outcome is the second one, unless the second ran out of
    fuel. *)
Definition agrees {A : Type} (a b : result A) : Prop := b <> OutOfFuel -> a = b.

Section Statements.

Variable config : Config.

(** What each function of the parser owes to the text: the node it
    returns, followed by the tokens it leaves, reads as the tokens it was
    given (after the children already there, for the two loops). *)
Definition value_text (fuel : nat) : Prop :=
  forall ts v ts',
    parse_value config fuel ts = Ok (v, ts') ->
    to_alexson v ++ tokens_src ts' = tokens_src ts.

Definition obj_text (fuel : nat) : Prop :=
  forall ts v ts',
    _parse_obj config fuel ts = Ok (v, ts') ->
    to_alexson v ++ tokens_src ts' = tokens_src ts.

Definition obj_loop_text (fuel : nat) : Prop :=
  forall children dict ts v ts',
    obj_loop config fuel children dict ts = Ok (v, ts') ->
    to_alexson v ++ tokens_src ts' = pending children ts.

Definition array_text (fuel : nat) : Prop :=
  forall ts v ts',
    _parse_array config fuel ts = Ok (v, ts') ->
    match ts with
    | [] => False
    | t :: _ =>
        type (fst t) = LBRACKET ->
        to_alexson v ++ tokens_src ts' = tokens_src ts
    end.

Definition array_loop_text (fuel : nat) : Prop :=
  forall children items ts v ts',
    array_loop config fuel children items ts = Ok (v, ts') ->
    to_alexson v ++ tokens_src ts' = pending children ts.


(** Fuel that is enough for each function, and what it leaves: fewer
    tokens than it was given. *)
Definition value_returns (fuel : nat) : Prop :=
  forall ts, (3 * List.length ts + 3 <= fuel)%nat ->
             outcome (parse_value config fuel ts) (shorter (List.length ts)).

Definition obj_returns (fuel : nat) : Prop :=
  forall ts, (3 * List.length ts + 2 <= fuel)%nat ->
             outcome (_parse_obj config fuel ts) (shorter (List.length ts)).

Definition obj_loop_returns (fuel : nat) : Prop :=
  forall children dict ts,
    (3 * List.length ts + 1 <= fuel)%nat ->
    outcome (obj_loop config fuel children dict ts) (shorter (List.length ts)).

Definition array_returns (fuel : nat) : Prop :=
  forall ts, ts <> [] -> (3 * List.length ts + 2 <= fuel)%nat ->
             outcome (_parse_array config fuel ts) (shorter (List.length ts)).

Definition array_loop_returns (fuel : nat) : Prop :=
  forall children items ts,
    (3 * List.length ts + 4 <= fuel)%nat ->
    outcome (array_loop config fuel children items ts) (shorter (List.length ts)).


End Statements.

(** An [Object] or an [Array]. *)
Definition is_container (n : AlexsonNode) : bool :=
  match n with
  | Object _ _ | Array _ _ => true
  | _ => false
  end.

(** The expression [Number(s1) == Number(s2)]. *)
Definition Number_eq (s1 s2 : string) : result bool :=
  a <- mkNumber s1 ;;
  b <- mkNumber s2 ;;
  Ok (node_eq a b).

(** The floats other than the infinities and the NaN. *)
Definition finite (x : float) : bool :=
  match x with
  | S754_zero _ | S754_finite _ _ _ => true
  | S754_infinity _ | S754_nan => false
  end.

(** The characters of the text of a [NUMBER] token. *)
Definition number_char (c : ascii) : bool := isdigit c || Ascii.eqb c ".".

(** * Properties *)

(** ** Strings *)

Lemma append_nil_r (s : string) : s ++ "" = s.
Proof. induction s as [|c s IH]; simpl; [reflexivity | now rewrite IH]. Qed.

Lemma append_assoc (a b c : string) : (a ++ b) ++ c = a ++ (b ++ c).
Proof. induction a as [|x a IH]; simpl; [reflexivity | now rewrite IH]. Qed.

Lemma append_length (a b : string) :
  String.length (a ++ b) = (String.length a + String.length b)%nat.
Proof. induction a as [|x a IH]; simpl; [reflexivity | now rewrite IH]. Qed.

Lemma join_app (l1 l2 : list string) : join (l1 ++ l2)%list = join l1 ++ join l2.
Proof.
  induction l1 as [|x l1 IH]; simpl; [reflexivity|].
  now rewrite IH, append_assoc.
Qed.

Lemma escape_app (a b : string) : escape (a ++ b) = escape a ++ escape b.
Proof.
  induction a as [|x a IH]; simpl; [reflexivity|].
  destruct (Ascii.eqb x quote); simpl; now rewrite IH.
Qed.

Lemma string_forall_impl (p q : ascii -> bool) (s : string) :
  (forall c, p c = true -> q c = true) ->
  string_forall p s = true -> string_forall q s = true.
Proof.
  intros Hpq. induction s as [|c s IH]; simpl; [trivial|].
  intros H. apply andb_prop in H. destruct H as [Hc Hs].
  now rewrite (Hpq _ Hc), IH.
Qed.

Lemma plain_neq (c : ascii) : c <> quote -> c <> "#"%char -> plain c = true.
Proof.
  intros Hq Hh. unfold plain.
  apply Ascii.eqb_neq in Hq. apply Ascii.eqb_neq in Hh. now rewrite Hq, Hh.
Qed.

Lemma number_char_plain (c : ascii) :
  isdigit c || Ascii.eqb c "." = true -> plain c = true.
Proof.
  intros H. apply plain_neq; intros ->; vm_compute in H; discriminate.
Qed.

Lemma variable_char_plain (c : ascii) :
  isalpha c || isdigit c || Ascii.eqb c "_" = true -> plain c = true.
Proof.
  intros H. apply plain_neq; intros ->; vm_compute in H; discriminate.
Qed.

(** Outside strings and comments, plain characters change nothing. *)
Lemma escapes_ok_plain (a s : string) :
  string_forall plain a = true -> escapes_ok Code (a ++ s) = escapes_ok Code s.
Proof.
  induction a as [|c a IH]; simpl; [reflexivity|].
  intros H. apply andb_prop in H. destruct H as [Hc Ha].
  unfold plain in Hc. apply andb_prop in Hc. destruct Hc as [Hq Hh].
  destruct (Ascii.eqb c quote); [discriminate|].
  destruct (Ascii.eqb c "#"); [discriminate|]. now apply IH.
Qed.

(** A comment runs to the end of its line. *)
Lemma escapes_ok_comment (body s : string) :
  string_forall (fun c => negb (Ascii.eqb c newline)) body = true ->
  match s with
  | EmptyString => True
  | String c _ => negb (Ascii.eqb c newline) = false
  end ->
  escapes_ok InComment (body ++ s) = escapes_ok Code s.
Proof.
  intros Hb Hs. induction body as [|c body IH]; simpl.
  - destruct s as [|c s]; [reflexivity|]. simpl.
    apply negb_false_iff in Hs. rewrite Hs.
    apply Ascii.eqb_eq in Hs. subst c. reflexivity.
  - simpl in Hb. apply andb_prop in Hb. destruct Hb as [Hc Hb].
    apply negb_true_iff in Hc. rewrite Hc. now apply IH.
Qed.

Lemma repeat_char_forall (c : ascii) (s : string) :
  string_forall (fun x => Ascii.eqb x c) s = true ->
  s = repeat_char c (String.length s).
Proof.
  induction s as [|x s IH]; simpl; [reflexivity|].
  intros H. apply andb_prop in H. destruct H as [Hx Hs].
  apply Ascii.eqb_eq in Hx. subst x. now rewrite <- IH.
Qed.

(** ** The scanner gives the text back *)

Section ScannerText.

Import Lexer.

Lemma scan_text (p : ascii -> bool) (r acc : String.string) (row col : Z)
      (v : String.string) (l' : Lexer) :
  scan p acc r row col = (v, l') ->
  exists took, v = acc ++ took /\ r = took ++ rest l'
               /\ string_forall p took = true.
Proof.
  revert acc row col. induction r as [|c r IH]; intros acc row col H; simpl in H.
  - inversion H; subst. exists "". now rewrite append_nil_r.
  - destruct (p c) eqn:Hp.
    + destruct (moved (head r) row col) as [row' col'].
      apply IH in H. destruct H as (took & Hv & Hr & Hall).
      exists (String c took). rewrite Hv, append_assoc. simpl.
      rewrite Hp, Hall. now rewrite <- Hr.
    + inversion H; subst. exists "". now rewrite append_nil_r.
Qed.

Lemma scan_stop (p : ascii -> bool) (r acc : String.string) (row col : Z)
      (v : String.string) (l' : Lexer) :
  scan p acc r row col = (v, l') ->
  match rest l' with
  | EmptyString => True
  | String c _ => p c = false
  end.
Proof.
  revert acc row col. induction r as [|c r IH]; intros acc row col H; simpl in H.
  - inversion H; subst. exact I.
  - destruct (p c) eqn:Hp.
    + destruct (moved (head r) row col) as [row' col']. now apply IH in H.
    + inversion H; subst. simpl. exact Hp.
Qed.

Lemma scan_token_text (ty : TokenType) (p : ascii -> bool) (l l' : Lexer) (t : Token) :
  scan_token ty p "" l = (t, l') ->
  type t = ty /\ rest l = value t ++ rest l' /\ string_forall p (value t) = true.
Proof.
  unfold scan_token. intros H.
  destruct (scan p "" (rest l) (row l) (col l)) as [v l0] eqn:E.
  inversion H; subst. apply scan_text in E.
  destruct E as (took & Hv & Hr & Hall). simpl in Hv. subst v. simpl.
  now rewrite <- Hr.
Qed.

Lemma _next_text (l l' : Lexer) :
  _next l = Ok l' -> exists c, rest l = String c (rest l').
Proof.
  unfold _next. destruct (rest l) as [|c r]; [discriminate|].
  intros H. inversion H; subst. exists c. unfold step.
  now destruct (moved (head r) (row l) (col l)).
Qed.

Lemma next_text (n : nat) (l l' : Lexer) :
  next n l = Ok l' ->
  exists took, rest l = took ++ rest l' /\ String.length took = n.
Proof.
  revert l. induction n as [|n IH]; intros l H; simpl in H.
  - inversion H; subst. now exists "".
  - destruct (_next l) as [l1| |] eqn:E; simpl in H; try discriminate.
    apply _next_text in E. destruct E as [c Hc].
    apply IH in H. destruct H as (took & Hr & Hlen).
    exists (String c took). simpl. now rewrite Hc, Hr, Hlen.
Qed.

(** The loop of [string], from any of its states: what it went over is the
    escaped form of what it collected. *)
Lemma string_loop_text (r acc : String.string) (escaped : bool) (row col : Z)
      (v : String.string) (l2 : Lexer) :
  string_loop acc escaped r row col = (v, l2) ->
  rest l2 <> "" ->
  escapes_ok InString (if escaped then String backslash r else r) = true ->
  exists raw, r = raw ++ rest l2 /\ head (rest l2) = Some quote
              /\ escape v
                 = (if escaped then escape acc ++ String backslash "" else escape acc)
                   ++ raw
              /\ escapes_ok InString (rest l2) = true.
Proof.
  revert acc escaped row col.
  induction r as [|c r IH]; intros acc escaped row col H Hne Hok; simpl in H.
  - inversion H; subst. now elim Hne.
  - destruct (Ascii.eqb c quote && negb escaped) eqn:Hstop.
    + inversion H; subst. simpl. apply andb_prop in Hstop.
      destruct Hstop as [Hq Hesc]. apply Ascii.eqb_eq in Hq. subst c.
      destruct escaped; [discriminate|].
      exists "". simpl. now rewrite append_nil_r.
    + destruct (moved (head r) row col) as [row' col'].
      destruct (Ascii.eqb c backslash) eqn:Hb.
      * apply Ascii.eqb_eq in Hb. subst c.
        destruct escaped.
        { simpl in Hok. discriminate. }
        apply IH in H; [|assumption|exact Hok].
        destruct H as (raw & Hr & Hq & Hv & Hrest).
        exists (String backslash raw). simpl. rewrite <- Hr.
        repeat split; try assumption.
        rewrite Hv, append_assoc. reflexivity.
      * destruct escaped.
        { simpl in Hok. apply andb_prop in Hok. destruct Hok as [Hq Hok].
          apply Ascii.eqb_eq in Hq. subst c.
          apply IH in H; [|assumption|exact Hok].
          destruct H as (raw & Hr & Hq & Hv & Hrest).
          exists (String quote raw). simpl. rewrite <- Hr.
          repeat split; try assumption.
          rewrite Hv, escape_app, !append_assoc. reflexivity. }
        { rewrite andb_true_r in Hstop.
          assert (Hok' : escapes_ok InString r = true).
          { simpl in Hok. now rewrite Hb, Hstop in Hok. }
          apply IH in H; [|assumption|exact Hok'].
          destruct H as (raw & Hr & Hq & Hv & Hrest).
          exists (String c raw). simpl. rewrite <- Hr.
          repeat split; try assumption.
          rewrite Hv, escape_app, append_assoc. simpl. now rewrite Hstop. }
Qed.

Lemma string_text (l l' : Lexer) (t : Token) :
  string l = Ok (t, l') ->
  current_char l = Some quote ->
  escapes_ok Code (rest l) = true ->
  rest l = token_src t ++ rest l' /\ escapes_ok Code (rest l') = true.
Proof.
  unfold string, current_char. intros H Hc Hok.
  destruct (_next l) as [l1| |] eqn:E1; simpl in H; try discriminate.
  destruct (string_loop "" false (rest l1) (row l1) (col l1)) as [v l2] eqn:E2.
  destruct (_next l2) as [l3| |] eqn:E3; simpl in H; try discriminate.
  inversion H; subst. clear H.
  apply _next_text in E1. destruct E1 as [c Hr]. rewrite Hr in Hc, Hok |- *.
  inversion Hc; subst c.
  apply _next_text in E3. destruct E3 as [c3 Hr3].
  apply string_loop_text in E2.
  - destruct E2 as (raw & Hraw & Hq & Hv & Hrest). simpl in Hv.
    rewrite Hr3 in Hq, Hrest. simpl in Hq. inversion Hq; subst c3. split.
    + unfold token_src. simpl. rewrite Hv, Hraw, Hr3, append_assoc. reflexivity.
    + exact Hrest.
  - rewrite Hr3. discriminate.
  - exact Hok.
Qed.

Lemma scan_progress (p : ascii -> bool) (c : ascii) (r acc : String.string)
      (row col : Z) (v : String.string) (l' : Lexer) :
  scan p acc (String c r) row col = (v, l') -> p c = true ->
  (String.length (rest l') < String.length (String c r))%nat.
Proof.
  simpl. intros H Hp. rewrite Hp in H.
  destruct (moved (head r) row col) as [row' col'].
  apply scan_text in H. destruct H as (took & _ & Hr & _).
  rewrite Hr, append_length. lia.
Qed.

Lemma append_inj_length (a a' b b' : String.string) :
  a ++ b = a' ++ b' -> String.length a = String.length a' -> a = a' /\ b = b'.
Proof.
  revert a'. induction a as [|x a IH]; intros [|x' a'] H Hlen;
    simpl in *; try discriminate.
  - now split.
  - inversion H; subst. inversion Hlen as [Hl].
    destruct (IH _ H2 Hl) as [-> ->]. now split.
Qed.

Lemma substring_prefix (n : nat) (r : String.string) :
  (n <= String.length r)%nat ->
  exists r', r = substring 0 n r ++ r' /\ String.length (substring 0 n r) = n.
Proof.
  revert r. induction n as [|n IH]; intros r Hn.
  - exists r. now destruct r.
  - destruct r as [|c r]; simpl in Hn; [lia|].
    destruct (IH r) as (r' & Hr & Hl); [lia|].
    exists r'. simpl. now rewrite <- Hr, Hl.
Qed.

Lemma keyword_text (ty : TokenType) (c : ascii) (s : String.string) (n : nat)
      (l l' : Lexer) (t : Token) :
  current_char l = Some c ->
  peek_is n l s = true ->
  keyword ty (String c s) (S n) l = Ok (t, l') ->
  t = mkToken ty (String c s) /\ rest l = String c s ++ rest l'.
Proof.
  unfold current_char, peek_is, peek, keyword. intros Hc Hp H.
  destruct (next (S n) l) as [l1| |] eqn:E; simpl in H; try discriminate.
  inversion H; subst. split; [reflexivity|].
  destruct (rest l) as [|c0 r] eqn:Hr; [discriminate|]. inversion Hc; subst c0.
  destruct (String.length (String c r) <=? n)%nat eqn:Hlen; [discriminate|].
  apply Nat.leb_gt in Hlen. simpl in Hlen. simpl in Hp.
  apply String.eqb_eq in Hp.
  destruct (substring_prefix n r) as (r' & Hr' & Hl); [lia|].
  rewrite Hp in Hr', Hl.
  apply next_text in E. destruct E as (took & Ht & Htl).
  rewrite Hr in Ht. rewrite Hr' in Ht.
  change (String c (s ++ r')) with (String c s ++ r') in Ht.
  symmetry in Ht. apply append_inj_length in Ht.
  - destruct Ht as [-> <-]. simpl. f_equal. exact Hr'.
  - simpl. now rewrite Htl, Hl.
Qed.

Lemma single_text (ty : TokenType) (c : ascii) (l l' : Lexer) (t : Token) :
  current_char l = Some c ->
  single ty (String c "") l = Ok (t, l') ->
  t = mkToken ty (String c "") /\ rest l = String c (rest l').
Proof.
  unfold current_char, single. intros Hc H.
  destruct (_next l) as [l1| |] eqn:E; simpl in H; try discriminate.
  inversion H; subst. split; [reflexivity|].
  apply _next_text in E. destruct E as [c0 Hr]. rewrite Hr in Hc |- *.
  now inversion Hc.
Qed.

Lemma variable_text (c : ascii) (l l' : Lexer) (t : Token) :
  variable l = Ok (t, l') ->
  current_char l = Some c ->
  type t = VARIABLE /\ rest l = value t ++ rest l'
  /\ exists took,
       value t = String c took
       /\ string_forall (fun c => isalpha c || isdigit c || Ascii.eqb c "_") took = true.
Proof.
  unfold variable, current_char. intros H Hc.
  destruct (rest l) as [|c0 r] eqn:Hr; [discriminate|]. inversion Hc; subst c0.
  destruct (_next l) as [l1| |] eqn:E; simpl in H; try discriminate.
  apply _next_text in E. destruct E as [c0 Hr1]. rewrite Hr in Hr1.
  inversion Hr1; subst. clear Hr1.
  unfold scan_token in H.
  destruct (scan _ (String c0 "") (rest l1) (row l1) (col l1)) as [v l0] eqn:E.
  inversion H; subst. apply scan_text in E.
  destruct E as (took & Hv & Hr' & Hall). subst v. simpl.
  rewrite <- Hr'. repeat split. now exists took.
Qed.

Lemma string_loop_suffix (r acc : String.string) (escaped : bool) (row col : Z)
      (v : String.string) (l2 : Lexer) :
  string_loop acc escaped r row col = (v, l2) -> exists raw, r = raw ++ rest l2.
Proof.
  revert acc escaped row col.
  induction r as [|c r IH]; intros acc escaped row col H; simpl in H.
  - inversion H; subst. now exists "".
  - destruct (Ascii.eqb c quote && negb escaped).
    + inversion H; subst. now exists "".
    + destruct (moved (head r) row col) as [row' col'].
      destruct (Ascii.eqb c backslash); apply IH in H; destruct H as [raw Hr];
        exists (String c raw); simpl; now rewrite <- Hr.
Qed.

(** One token: the text splits into the token, as written, and the rest. *)
Lemma dispatch_text (c : ascii) (l l' : Lexer) (t : Token) :
  dispatch c l = Ok (t, l') ->
  current_char l = Some c ->
  (String.length (rest l') < String.length (rest l))%nat
  /\ (escapes_ok Code (rest l) = true ->
      rest l = token_src t ++ rest l' /\ escapes_ok Code (rest l') = true).
Proof.
  unfold dispatch. intros H Hc.
  assert (Hlen : rest l = token_src t ++ rest l' -> token_src t <> "" ->
                 (String.length (rest l') < String.length (rest l))%nat).
  { intros Hr Hne. rewrite Hr, append_length.
    destruct (token_src t); [now elim Hne|simpl; lia]. }
  assert (Hboth : rest l = token_src t ++ rest l' -> token_src t <> "" ->
                  string_forall plain (token_src t) = true ->
                  (String.length (rest l') < String.length (rest l))%nat
                  /\ (escapes_ok Code (rest l) = true ->
                      rest l = token_src t ++ rest l'
                      /\ escapes_ok Code (rest l') = true)).
  { intros Hr Hne Hp. split; [now apply Hlen|]. intros Hok. split; [exact Hr|].
    rewrite Hr in Hok. now rewrite escapes_ok_plain in Hok. }
  assert (Hrest : exists r, rest l = String c r).
  { unfold current_char in Hc. destruct (rest l) as [|c0 r]; [discriminate|].
    inversion Hc. now exists r. }
  destruct Hrest as [r Hrest].
  assert (Hscan : forall ty p t0 l0,
             scan_token ty p "" l = (t0, l0) -> p c = true ->
             type t0 = ty /\ rest l = value t0 ++ rest l0 /\ value t0 <> ""
             /\ string_forall p (value t0) = true
             /\ match rest l0 with
                | EmptyString => True
                | String c0 _ => p c0 = false
                end).
  { intros ty p t0 l0 E Hp. destruct (scan_token_text _ _ _ _ _ E) as (Hty & Hr & Hall).
    split; [exact Hty|]. split; [exact Hr|].
    unfold scan_token in E. rewrite Hrest in E.
    destruct (scan p "" (String c r) (row l) (col l)) as [v l1] eqn:E1.
    injection E as Et El. subst l0.
    split; [|split; [exact Hall | exact (scan_stop _ _ _ _ _ _ _ E1)]].
    intros Hv. pose proof (scan_progress _ _ _ _ _ _ _ _ E1 Hp) as Hlt.
    rewrite Hrest, Hv in Hr. simpl in Hr. rewrite <- Hr in Hlt. lia. }
  assert (Hrun : forall ty c0 t0 l0,
             scan_token ty (fun x => Ascii.eqb x c0) "" l = (t0, l0) ->
             Ascii.eqb c c0 = true -> plain c0 = true ->
             type t0 = ty /\ rest l = repeat_char c0 (String.length (value t0)) ++ rest l0
             /\ repeat_char c0 (String.length (value t0)) <> ""
             /\ string_forall plain (repeat_char c0 (String.length (value t0))) = true).
  { intros ty c0 t0 l0 E Hp Hc0. apply Hscan in E; [|exact Hp].
    destruct E as (Hty & Hr & Hne & Hall & _).
    rewrite <- (repeat_char_forall _ _ Hall). repeat split; try assumption.
    apply (string_forall_impl (fun x => Ascii.eqb x c0) plain); [|exact Hall].
    intros x Hx. apply Ascii.eqb_eq in Hx. now subst x. }
  destruct (Ascii.eqb c "t" && peek_is 3 l "rue") eqn:K1.
  { apply andb_prop in K1. destruct K1 as [Kc Kp]. apply Ascii.eqb_eq in Kc. subst c.
    destruct (keyword_text _ _ _ _ _ _ _ Hc Kp H) as [-> Hr].
    apply Hboth; [exact Hr | discriminate | reflexivity]. }
  destruct (Ascii.eqb c "f" && peek_is 4 l "alse") eqn:K2.
  { apply andb_prop in K2. destruct K2 as [Kc Kp]. apply Ascii.eqb_eq in Kc. subst c.
    destruct (keyword_text _ _ _ _ _ _ _ Hc Kp H) as [-> Hr].
    apply Hboth; [exact Hr | discriminate | reflexivity]. }
  destruct (Ascii.eqb c "n" && peek_is 3 l "ull") eqn:K3.
  { apply andb_prop in K3. destruct K3 as [Kc Kp]. apply Ascii.eqb_eq in Kc. subst c.
    destruct (keyword_text _ _ _ _ _ _ _ Hc Kp H) as [-> Hr].
    apply Hboth; [exact Hr | discriminate | reflexivity]. }
  destruct (Ascii.eqb c quote) eqn:K4.
  { apply Ascii.eqb_eq in K4. subst c. split.
    - unfold string in H.
      destruct (_next l) as [l1| |] eqn:E1; simpl in H; try discriminate.
      destruct (string_loop "" false (rest l1) (row l1) (col l1)) as [v l2] eqn:E2.
      destruct (_next l2) as [l3| |] eqn:E3; simpl in H; try discriminate.
      inversion H; subst.
      apply _next_text in E1. destruct E1 as [c1 Hr1].
      apply _next_text in E3. destruct E3 as [c3 Hr3].
      apply string_loop_suffix in E2. destruct E2 as [raw Hraw].
      rewrite Hr1, Hraw, Hr3. simpl. rewrite append_length. simpl. lia.
    - intros Hok. now apply string_text. }
  destruct (Ascii.eqb c "#") eqn:K5.
  { apply Ascii.eqb_eq in K5. subst c.
    inversion H as [E]. apply Hscan in E; [|reflexivity].
    destruct E as (Hty & Hr & Hne & Hall & Hstop).
    assert (Hsrc : token_src t = value t) by (unfold token_src; now rewrite Hty).
    split; [apply Hlen; rewrite Hsrc; assumption|].
    intros Hok. rewrite Hsrc. split; [exact Hr|].
    rewrite Hr in Hok. rewrite Hrest in Hr.
    destruct (value t) as [|c0 body]; [now elim Hne|].
    simpl in Hr. inversion Hr; subst c0.
    simpl in Hall. simpl in Hok.
    now rewrite escapes_ok_comment in Hok. }
  destruct (Ascii.eqb c newline) eqn:K6.
  { inversion H as [E]. apply Hrun in E; [|assumption|reflexivity].
    destruct E as (Hty & Hr & Hne & Hall).
    assert (Hsrc : token_src t = repeat_char newline (String.length (value t)))
      by (unfold token_src; now rewrite Hty).
    apply Hboth; now rewrite Hsrc. }
  destruct (Ascii.eqb c tab) eqn:K7.
  { inversion H as [E]. apply Hrun in E; [|assumption|reflexivity].
    destruct E as (Hty & Hr & Hne & Hall).
    assert (Hsrc : token_src t = repeat_char tab (String.length (value t)))
      by (unfold token_src; now rewrite Hty).
    apply Hboth; now rewrite Hsrc. }
  destruct (Ascii.eqb c space) eqn:K8.
  { inversion H as [E]. apply Hrun in E; [|assumption|reflexivity].
    destruct E as (Hty & Hr & Hne & Hall).
    assert (Hsrc : token_src t = repeat_char space (String.length (value t)))
      by (unfold token_src; now rewrite Hty).
    apply Hboth; now rewrite Hsrc. }
  destruct (Ascii.eqb c "{") eqn:K9.
  { apply Ascii.eqb_eq in K9. subst c.
    destruct (single_text _ _ _ _ _ Hc H) as [-> Hr].
    apply Hboth; [exact Hr | discriminate | reflexivity]. }
  destruct (Ascii.eqb c "}") eqn:K10.
  { apply Ascii.eqb_eq in K10. subst c.
    destruct (single_text _ _ _ _ _ Hc H) as [-> Hr].
    apply Hboth; [exact Hr | discriminate | reflexivity]. }
  destruct (Ascii.eqb c "[") eqn:K11.
  { apply Ascii.eqb_eq in K11. subst c.
    destruct (single_text _ _ _ _ _ Hc H) as [-> Hr].
    apply Hboth; [exact Hr | discriminate | reflexivity]. }
  destruct (Ascii.eqb c "]") eqn:K12.
  { apply Ascii.eqb_eq in K12. subst c.
    destruct (single_text _ _ _ _ _ Hc H) as [-> Hr].
    apply Hboth; [exact Hr | discriminate | reflexivity]. }
  destruct (Ascii.eqb c ":") eqn:K13.
  { apply Ascii.eqb_eq in K13. subst c.
    destruct (single_text _ _ _ _ _ Hc H) as [-> Hr].
    apply Hboth; [exact Hr | discriminate | reflexivity]. }
  destruct (Ascii.eqb c ",") eqn:K14.
  { apply Ascii.eqb_eq in K14. subst c.
    destruct (single_text _ _ _ _ _ Hc H) as [-> Hr].
    apply Hboth; [exact Hr | discriminate | reflexivity]. }
  destruct (isalpha c || Ascii.eqb c "_") eqn:K15.
  { destruct (variable_text _ _ _ _ H Hc) as (Hty & Hr & took & Hv & Hall).
    assert (Hsrc : token_src t = value t) by (unfold token_src; now rewrite Hty).
    apply Hboth; rewrite Hsrc; [exact Hr | rewrite Hv; discriminate |].
    rewrite Hv. simpl. apply andb_true_intro. split.
    - apply variable_char_plain. apply orb_prop in K15.
      destruct K15 as [Ka|Ku]; [now rewrite Ka | rewrite Ku; apply orb_true_r].
    - exact (string_forall_impl _ _ _ variable_char_plain Hall). }
  destruct (isdigit c) eqn:K16.
  { inversion H as [E]. apply Hscan in E; [|now rewrite K16].
    destruct E as (Hty & Hr & Hne & Hall & _).
    assert (Hsrc : token_src t = value t) by (unfold token_src; now rewrite Hty).
    apply Hboth; rewrite Hsrc; [exact Hr | exact Hne |].
    exact (string_forall_impl _ _ _ number_char_plain Hall). }
  discriminate.
Qed.

Lemma tokens_src_snoc (acc : list PToken) (t : PToken) :
  tokens_src (acc ++ [t]) = tokens_src acc ++ token_src (fst t).
Proof.
  unfold tokens_src. rewrite map_app, join_app. simpl. now rewrite append_nil_r.
Qed.

Lemma next_token_inv (l l' : Lexer) (o : option PToken) (c : ascii) :
  current_char l = Some c ->
  next_token l = Ok (o, l') ->
  exists t pos, o = Some (t, pos) /\ dispatch c l = Ok (t, l').
Proof.
  unfold next_token. intros Hc H. rewrite Hc in H.
  destruct (dispatch c l) as [[t l1]| |]; simpl in H; try discriminate.
  inversion H; subst. now exists t, (row l', col l').
Qed.

Lemma tokenize_loop_text (fuel : nat) (l : Lexer) (acc toks : list PToken) :
  tokenize_loop fuel l acc = Ok toks ->
  escapes_ok Code (rest l) = true ->
  tokens_src toks = tokens_src acc ++ rest l.
Proof.
  revert l acc. induction fuel as [|fuel IH]; intros l acc H Hok; simpl in H;
    destruct (current_char l) as [c|] eqn:Hc.
  - discriminate.
  - inversion H; subst. unfold current_char in Hc.
    destruct (rest l); [now rewrite append_nil_r | discriminate].
  - destruct (next_token l) as [[o l1]| |] eqn:E; simpl in H; try discriminate.
    destruct (next_token_inv _ _ _ _ Hc E) as (t & pos & -> & Hd).
    destruct (dispatch_text _ _ _ _ Hd Hc) as [_ Hsrc].
    destruct (Hsrc Hok) as [Hr Hok'].
    apply IH in H; [|exact Hok'].
    rewrite H, tokens_src_snoc, append_assoc. simpl. now rewrite <- Hr.
  - inversion H; subst. unfold current_char in Hc.
    destruct (rest l); [now rewrite append_nil_r | discriminate].
Qed.

Lemma _next_returns (l : Lexer) : _next l <> OutOfFuel.
Proof. unfold _next. destruct (rest l); discriminate. Qed.

Lemma next_returns (n : nat) (l : Lexer) : next n l <> OutOfFuel.
Proof.
  revert l. induction n as [|n IH]; intros l; simpl; [discriminate|].
  pose proof (_next_returns l) as Hn.
  destruct (_next l); simpl; [apply IH | discriminate | now elim Hn].
Qed.

Lemma dispatch_returns (c : ascii) (l : Lexer) : dispatch c l <> OutOfFuel.
Proof.
  assert (Hk : forall ty v n, keyword ty v n l <> OutOfFuel).
  { intros ty v n. unfold keyword. pose proof (next_returns n l) as Hn.
    destruct (next n l); simpl; [discriminate | discriminate | now elim Hn]. }
  assert (Hs : forall ty v, single ty v l <> OutOfFuel).
  { intros ty v. unfold single. pose proof (_next_returns l) as Hn.
    destruct (_next l); simpl; [discriminate | discriminate | now elim Hn]. }
  assert (Hv : variable l <> OutOfFuel).
  { unfold variable. pose proof (_next_returns l) as Hn.
    destruct (rest l); destruct (_next l); simpl;
      try discriminate; now elim Hn. }
  assert (Hstr : string l <> OutOfFuel).
  { unfold string. pose proof (_next_returns l) as Hn.
    destruct (_next l) as [l1| |]; simpl; [|discriminate|now elim Hn].
    destruct (string_loop "" false (rest l1) (row l1) (col l1)) as [v l2].
    pose proof (_next_returns l2) as Hn2.
    destruct (_next l2); simpl; [discriminate | discriminate | now elim Hn2]. }
  unfold dispatch, error.
  repeat match goal with
         | |- context [if ?b then _ else _] => destruct b
         end; auto; discriminate.
Qed.

Lemma tokenize_loop_fuel (fuel : nat) (l : Lexer) (acc : list PToken) :
  (String.length (rest l) <= fuel)%nat ->
  tokenize_loop fuel l acc <> OutOfFuel.
Proof.
  revert l acc. induction fuel as [|fuel IH]; intros l acc Hlen; simpl;
    destruct (current_char l) as [c|] eqn:Hc; try discriminate.
  - unfold current_char in Hc. destruct (rest l); [discriminate | simpl in Hlen; lia].
  - destruct (next_token l) as [[o l1]| |] eqn:E; simpl; try discriminate.
    + destruct (next_token_inv _ _ _ _ Hc E) as (t & pos & -> & Hd).
      destruct (dispatch_text _ _ _ _ Hd Hc) as [Hlt _].
      apply IH. lia.
    + exfalso. revert E. unfold next_token. rewrite Hc.
      pose proof (dispatch_returns c l) as Hd.
      destruct (dispatch c l) as [[t l1]| |]; simpl; try discriminate.
      now elim Hd.
Qed.

(** The scanner returns: it yields tokens or raises [AlexsonLexicalError]. *)
Lemma tokenize_total (text : String.string) : tokenize text <> OutOfFuel.
Proof. unfold tokenize. now apply tokenize_loop_fuel. Qed.

(** The tokens, written out again one after the other, are the text. *)
Lemma tokenize_text (text : String.string) (toks : list PToken) :
  tokenize text = Ok toks -> escapes_ok Code text = true -> tokens_src toks = text.
Proof.
  unfold tokenize. intros H Hok. now apply tokenize_loop_text in H.
Qed.

End ScannerText.

(** ** The tree gives the tokens back *)

Section ParserText.

Variable config : Config.
Hypothesis comments_kept : keeps_comments config.

Local Open Scope list_scope.

Lemma nodes_src_app (a b : list AlexsonNode) :
  nodes_src (a ++ b) = (nodes_src a ++ nodes_src b)%string.
Proof. unfold nodes_src. now rewrite map_app, join_app. Qed.

Lemma tokens_src_cons (t : PToken) (ts : list PToken) :
  tokens_src (t :: ts) = (token_src (fst t) ++ tokens_src ts)%string.
Proof. reflexivity. Qed.

Lemma nodes_src_repeat (n : AlexsonNode) (c : ascii) (k : nat) :
  to_alexson n = String c "" -> nodes_src (List.repeat n k) = repeat_char c k.
Proof.
  intros Hn. induction k as [|k IH]; [reflexivity|].
  change (nodes_src (n :: List.repeat n k)
          = String c (repeat_char c k)).
  unfold nodes_src in *. simpl. now rewrite Hn, IH.
Qed.

Lemma non_json_nodes_src (t : Token) :
  NON_JSON_TYPES (type t) = true -> nodes_src (non_json_nodes config t) = token_src t.
Proof.
  unfold non_json_nodes, token_src.
  destruct (type t); try discriminate; intros _.
  - rewrite comments_kept. unfold nodes_src. simpl. now rewrite append_nil_r.
  - now apply nodes_src_repeat.
  - now apply nodes_src_repeat.
  - now apply nodes_src_repeat.
Qed.

Lemma pending_push (children : list AlexsonNode) (n : AlexsonNode)
      (t : PToken) (ts : list PToken) :
  to_alexson n = token_src (fst t) ->
  pending (children ++ [n]) ts = pending children (t :: ts).
Proof.
  intros Hn. unfold pending. rewrite nodes_src_app, tokens_src_cons, append_assoc.
  unfold nodes_src at 2. simpl. now rewrite append_nil_r, Hn.
Qed.

Lemma non_json_loop_text (ts ts' : list PToken) (acc ws : list AlexsonNode) :
  non_json_loop config ts acc = Ok (ws, ts') -> pending ws ts' = pending acc ts.
Proof.
  revert acc. induction ts as [|[t pos] ts IH]; intros acc H; simpl in H.
  - discriminate.
  - destruct (NON_JSON_TYPES (type t)) eqn:Hty.
    + apply IH in H. rewrite H. unfold pending.
      rewrite nodes_src_app, tokens_src_cons, append_assoc. simpl.
      now rewrite non_json_nodes_src.
    + now inversion H.
Qed.

Lemma _parse_non_json_text (children : list AlexsonNode) (ts ts' : list PToken)
      (ws : list AlexsonNode) :
  _parse_non_json config ts = Ok (ws, ts') ->
  pending (children ++ ws) ts' = pending children ts.
Proof.
  intros H.
  assert (Hw : pending ws ts' = pending [] ts).
  { destruct ts as [|t ts]; unfold _parse_non_json in H.
    - now inversion H.
    - now apply non_json_loop_text in H. }
  unfold pending in *. rewrite nodes_src_app, append_assoc.
  simpl in Hw. now rewrite Hw.
Qed.

Lemma TokenType_eqb_eq (a b : TokenType) : TokenType_eqb a b = true <-> a = b.
Proof. destruct a, b; simpl; split; intros H; try reflexivity; discriminate. Qed.

Lemma current_type_inv (ts : list PToken) (ty : TokenType) :
  current_type ts = Ok ty -> exists t pos ts0, ts = (t, pos) :: ts0 /\ type t = ty.
Proof.
  destruct ts as [|[t pos] ts0]; simpl; [discriminate|].
  intros H. inversion H. now exists t, pos, ts0.
Qed.

Lemma pending_close (children : list AlexsonNode) (n : AlexsonNode)
      (t : PToken) (ts : list PToken) (mk : list AlexsonNode -> AlexsonNode) :
  (forall l, to_alexson (mk l) = nodes_src l) ->
  to_alexson n = token_src (fst t) ->
  (to_alexson (mk (children ++ [n])%list) ++ tokens_src ts)%string
  = pending children (t :: ts).
Proof.
  intros Hmk Hn. rewrite Hmk. now apply pending_push.
Qed.

Lemma pending_value (children : list AlexsonNode) (v : AlexsonNode)
      (ts ts' : list PToken) :
  (to_alexson v ++ tokens_src ts')%string = tokens_src ts ->
  pending children ts = pending (children ++ [v]) ts'.
Proof.
  intros H. unfold pending. rewrite <- H, nodes_src_app, append_assoc.
  assert (Hv : nodes_src [v] = to_alexson v).
  { unfold nodes_src. simpl. apply append_nil_r. }
  now rewrite Hv.
Qed.

Lemma parser_text (fuel : nat) :
  value_text config fuel /\ obj_text config fuel /\ obj_loop_text config fuel
  /\ array_text config fuel /\ array_loop_text config fuel.
Proof.
  induction fuel as [|fuel (IHv & IHo & IHol & IHa & IHal)].
  { repeat split; red; intros; simpl in *; discriminate. }
  assert (Hv : value_text config (S fuel)).
  { intros ts v ts' H. simpl in H.
    destruct ts as [|[t pos] ts0]; [discriminate|].
    rewrite tokens_src_cons. unfold token_src. simpl fst.
    destruct (type t) eqn:Hty; simpl in H; try discriminate.
    - now inversion H.
    - destruct (float_of_str (value t)); [|discriminate]. now inversion H.
    - destruct (String.eqb_spec (value t) "true") as [Et|_].
      + inversion H; subst. simpl. now rewrite Et.
      + destruct (String.eqb_spec (value t) "false") as [Ef|_]; [|discriminate].
        inversion H; subst. simpl. now rewrite Ef.
    - now inversion H.
    - now inversion H.
    - apply IHo in H. rewrite H, tokens_src_cons. unfold token_src.
      simpl fst. now rewrite Hty.
    - apply IHa in H. simpl in H. specialize (H Hty).
      rewrite H, tokens_src_cons. unfold token_src.
      simpl fst. now rewrite Hty. }
  assert (Ho : obj_text config (S fuel)).
  { intros ts v ts' H. simpl in H.
    destruct ts as [|[t pos] ts0]; [discriminate|].
    destruct (TokenType_eqb (type t) LBRACE) eqn:Hty; simpl in H; [|discriminate].
    apply TokenType_eqb_eq in Hty. apply IHol in H. rewrite H.
    unfold pending. rewrite tokens_src_cons. unfold token_src. simpl fst.
    now rewrite Hty. }
  assert (Hol : obj_loop_text config (S fuel)).
  { intros children dict ts v ts' H. simpl in H.
    destruct (current_type ts) as [ty| |] eqn:Ety; simpl in H; try discriminate.
    destruct (current_type_inv _ _ Ety) as (t0 & pos0 & ts0 & Hts & Hty0).
    destruct (TokenType_eqb ty RBRACE) eqn:Hrb.
    { apply TokenType_eqb_eq in Hrb. inversion H; subst. simpl advance.
      apply (pending_close children RBrace (t0, pos0) ts0 (fun l => Object l dict));
        [reflexivity|]. unfold token_src. simpl fst. now rewrite Hty0. }
    clear t0 pos0 ts0 Hts Hty0.
    destruct (_parse_non_json config ts) as [[ws ts1]| |] eqn:E1;
      simpl in H; try discriminate.
    rewrite <- (_parse_non_json_text children _ _ _ E1).
    destruct ts1 as [|[k kpos] ts1]; [discriminate|].
    destruct (TokenType_eqb (type k) STRING) eqn:Hk; simpl in H; [|discriminate].
    apply TokenType_eqb_eq in Hk.
    rewrite <- (pending_push _ (String_ (value k)) (k, kpos) ts1)
      by (unfold token_src; simpl fst; now rewrite Hk).
    destruct (_parse_non_json config ts1) as [[ws0 ts2]| |] eqn:E2;
      simpl in H; try discriminate.
    rewrite <- (_parse_non_json_text _ _ _ _ E2).
    destruct ts2 as [|[c cpos] ts2]; [discriminate|].
    destruct (TokenType_eqb (type c) COLON) eqn:Hc; simpl in H; [|discriminate].
    apply TokenType_eqb_eq in Hc.
    rewrite <- (pending_push _ Colon (c, cpos) ts2)
      by (unfold token_src; simpl fst; now rewrite Hc).
    destruct (_parse_non_json config ts2) as [[ws1 ts3]| |] eqn:E3;
      simpl in H; try discriminate.
    rewrite <- (_parse_non_json_text _ _ _ _ E3).
    destruct (parse_value config fuel ts3) as [[val ts4]| |] eqn:E4;
      simpl in H; try discriminate.
    assert (Hval : pending (((((children ++ ws) ++ [String_ (value k)]) ++ ws0)
                               ++ [Colon]) ++ ws1) ts3
                   = pending ((((((children ++ ws) ++ [String_ (value k)]) ++ ws0)
                               ++ [Colon]) ++ ws1) ++ [val]) ts4).
    { apply pending_value. now apply IHv. }
    rewrite Hval. clear Hval.
    destruct (dict_contains dict (value k)); [discriminate|].
    destruct (_parse_non_json config ts4) as [[ws2 ts5]| |] eqn:E5;
      simpl in H; try discriminate.
    rewrite <- (_parse_non_json_text _ _ _ _ E5).
    destruct ts5 as [|[s spos] ts5]; [discriminate|].
    set (dict' := dict_set dict (value k) (String_ (value k), val)) in *.
    assert (Htail : forall ch ts6,
               (x <- _parse_non_json config ts6 ;;
                let '(ws3, ts7) := x in
                if allow_trailing_comma config
                then ty0 <- current_type ts7 ;;
                     if TokenType_eqb ty0 RBRACE
                     then Ok (Object ((ch ++ ws3) ++ [RBrace]) dict', advance ts7)
                     else obj_loop config fuel (ch ++ ws3) dict' ts7
                else obj_loop config fuel (ch ++ ws3) dict' ts7) = Ok (v, ts') ->
               (to_alexson v ++ tokens_src ts')%string = pending ch ts6).
    { intros ch ts6 T.
      destruct (_parse_non_json config ts6) as [[ws3 ts7]| |] eqn:E6;
        simpl in T; try discriminate.
      rewrite <- (_parse_non_json_text _ _ _ _ E6).
      destruct (allow_trailing_comma config); [|now apply IHol in T].
      destruct (current_type ts7) as [ty0| |] eqn:Ety0; simpl in T; try discriminate.
      destruct (current_type_inv _ _ Ety0) as (t0 & pos0 & ts0 & Hts & Hty0).
      destruct (TokenType_eqb ty0 RBRACE) eqn:Hrb0; [|now apply IHol in T].
      apply TokenType_eqb_eq in Hrb0. inversion T; subst. simpl advance.
      apply (pending_close _ RBrace (t0, pos0) ts0 (fun l => Object l dict'));
        [reflexivity|]. unfold token_src. simpl fst. now rewrite Hty0. }
    destruct (TokenType_eqb (type s) COMMA) eqn:Hs; cbn [bind negb] in H.
    { apply TokenType_eqb_eq in Hs. apply Htail in H. rewrite H.
      apply pending_push. unfold token_src. simpl fst. now rewrite Hs. }
    destruct (TokenType_eqb (type s) RBRACE); cbn [bind negb] in H; [|discriminate].
    now apply Htail in H. }
  assert (Hal : array_loop_text config (S fuel)).
  { intros children items ts v ts' H. simpl in H.
    destruct (current_type ts) as [ty| |] eqn:Ety; simpl in H; try discriminate.
    destruct (current_type_inv _ _ Ety) as (t0 & pos0 & ts0 & Hts & Hty0).
    destruct (TokenType_eqb ty RBRACKET) eqn:Hrb.
    { apply TokenType_eqb_eq in Hrb. inversion H; subst. simpl advance.
      apply (pending_close children RBracket (t0, pos0) ts0 (fun l => Array l items));
        [reflexivity|]. unfold token_src. simpl fst. now rewrite Hty0. }
    clear t0 pos0 ts0 Hts Hty0.
    destruct (_parse_non_json config ts) as [[ws ts1]| |] eqn:E1;
      simpl in H; try discriminate.
    rewrite <- (_parse_non_json_text children _ _ _ E1).
    destruct (parse_value config fuel ts1) as [[val ts2]| |] eqn:E2;
      simpl in H; try discriminate.
    assert (Hval : pending (children ++ ws) ts1 = pending ((children ++ ws) ++ [val]) ts2).
    { apply pending_value. now apply IHv. }
    rewrite Hval. clear Hval.
    destruct (_parse_non_json config ts2) as [[ws2 ts3]| |] eqn:E3;
      simpl in H; try discriminate.
    rewrite <- (_parse_non_json_text _ _ _ _ E3).
    destruct ts3 as [|[s spos] ts3]; [discriminate|].
    destruct (TokenType_eqb (type s) COMMA) eqn:Hs; cbn [bind negb] in H.
    { apply TokenType_eqb_eq in Hs. apply IHal in H. rewrite H.
      apply pending_push. unfold token_src. simpl fst. now rewrite Hs. }
    destruct (TokenType_eqb (type s) RBRACKET); cbn [bind negb] in H; [|discriminate].
    now apply IHal in H. }
  assert (Ha : array_text config (S fuel)).
  { intros ts v ts' H. simpl in H. destruct ts as [|[t pos] ts0].
    - destruct fuel; simpl in H; discriminate.
    - simpl fst. intros Hty. apply IHal in H. rewrite H.
      unfold pending. rewrite tokens_src_cons. unfold token_src. simpl fst.
      now rewrite Hty. }
  repeat split; assumption.
Qed.

Lemma parse_tokens_text (fuel : nat) (ts : list PToken) (root : AlexsonNode) :
  parse_tokens config fuel ts = Ok root -> to_alexson root = tokens_src ts.
Proof.
  destruct (parser_text fuel) as (_ & Ho & _ & Ha & _).
  unfold parse_tokens. destruct (current ts) as [t0|] eqn:Hcur.
  2:{ destruct ts; [|discriminate]. intros H. now inversion H. }
  clear t0 Hcur. intros H.
  destruct (_parse_non_json config ts) as [[ws ts1]| |] eqn:E1;
    cbn [bind] in H; try discriminate.
  pose proof (_parse_non_json_text [] _ _ _ E1) as Hws.
  change (pending [] ts) with (tokens_src ts) in Hws. rewrite <- Hws.
  change ([] ++ ws) with ws. clear Hws E1.
  destruct ts1 as [|[t pos] ts1]; cbn [current hd_error] in H.
  { inversion H; subst. unfold pending. simpl. now rewrite append_nil_r. }
  assert (Hc : forall c ts2,
             (if TokenType_eqb (type t) LBRACE
              then _parse_obj config fuel ((t, pos) :: ts1)
              else if TokenType_eqb (type t) LBRACKET
                   then _parse_array config fuel ((t, pos) :: ts1)
                   else unexpected (t, pos)
                          ", expecting Object or Array at the top level of the alexson string")
             = Ok (c, ts2) ->
             pending ws ((t, pos) :: ts1) = pending (ws ++ [c]) ts2).
  { intros c ts2 Hc. apply pending_value.
    destruct (TokenType_eqb (type t) LBRACE); [now apply Ho|].
    destruct (TokenType_eqb (type t) LBRACKET) eqn:Hb; [|discriminate].
    apply TokenType_eqb_eq in Hb. apply Ha in Hc. simpl in Hc. now apply Hc. }
  match type of H with
  | bind ?m _ = _ => destruct m as [[c ts2]| |] eqn:E2
  end; cbn [bind] in H; try discriminate.
  transitivity (pending (ws ++ [c]) ts2); [|symmetry; exact (Hc _ _ eq_refl)].
  destruct (_parse_non_json config ts2) as [[ws2 ts3]| |] eqn:E3;
    cbn [bind] in H; try discriminate.
  rewrite <- (_parse_non_json_text _ _ _ _ E3).
  destruct ts3; cbn [current hd_error] in H; [|discriminate].
  inversion H; subst. unfold pending. simpl. now rewrite append_nil_r.
Qed.

End ParserText.

(** ** The parser returns *)

Section ParserReturns.

Variable config : Config.

Local Open Scope list_scope.

Lemma outcome_bind {A B : Type} (m : result A) (k : A -> result B)
      (Q : A -> Prop) (R : B -> Prop) :
  outcome m Q -> (forall a, Q a -> outcome (k a) R) -> outcome (bind m k) R.
Proof. destruct m; simpl; auto. Qed.

Lemma outcome_weaken {A : Type} (r : result A) (Q R : A -> Prop) :
  outcome r Q -> (forall a, Q a -> R a) -> outcome r R.
Proof. destruct r; simpl; auto. Qed.

Lemma non_json_loop_returns (ts : list PToken) (acc : list AlexsonNode) :
  outcome (non_json_loop config ts acc) (not_longer (List.length ts)).
Proof.
  revert acc. induction ts as [|[t pos] ts IH]; intros acc; simpl; [exact I|].
  destruct (NON_JSON_TYPES (type t)).
  - eapply outcome_weaken; [apply IH|]. unfold not_longer. intros a Ha. lia.
  - unfold not_longer. simpl. lia.
Qed.

Lemma _parse_non_json_returns (ts : list PToken) :
  outcome (_parse_non_json config ts) (not_longer (List.length ts)).
Proof.
  destruct ts as [|t ts]; [unfold _parse_non_json, not_longer; simpl; lia|].
  apply non_json_loop_returns.
Qed.

Lemma current_type_returns (ts : list PToken) :
  outcome (current_type ts) (fun _ => ts <> []).
Proof. destruct ts as [|[t pos] ts]; simpl; [exact I | discriminate]. Qed.

Ltac returns_step :=
  match goal with
  | |- outcome (if ?b then _ else _) _ => destruct b eqn:?
  | |- outcome (unexpected _ _) _ => exact I
  | |- outcome (ParserException _ _) _ => exact I
  | |- outcome (Ok _) _ => unfold shorter; simpl; lia
  end.

Tactic Notation "blanks" ident(ws) ident(ts) ident(L) :=
  eapply outcome_bind; [apply _parse_non_json_returns|];
  intros [ws ts] L; unfold not_longer in L; simpl in L; cbn beta iota.

Tactic Notation "token" constr(ts) ident(t) ident(pos) ident(ts') :=
  destruct ts as [|[t pos] ts']; [exact I|]; cbn beta iota.

Lemma parser_returns (fuel : nat) :
  value_returns config fuel /\ obj_returns config fuel /\ obj_loop_returns config fuel
  /\ array_returns config fuel /\ array_loop_returns config fuel.
Proof.
  induction fuel as [|fuel (IHv & IHo & IHol & IHa & IHal)].
  { repeat split; red; intros; lia. }
  assert (Hv : value_returns config (S fuel)).
  { intros ts Hf. simpl. destruct ts as [|[t pos] ts]; [exact I|].
    simpl in Hf. destruct (type t); simpl; repeat returns_step;
      try (unfold shorter; simpl; lia); try exact I.
    - destruct (float_of_str (value t)); [unfold shorter; simpl; lia | exact I].
    - apply IHo. simpl. lia.
    - apply IHa; [discriminate | simpl; lia]. }
  assert (Ho : obj_returns config (S fuel)).
  { intros ts Hf. simpl. destruct ts as [|[t pos] ts]; [exact I|].
    simpl in Hf. returns_step; [exact I|].
    eapply outcome_weaken; [apply IHol; simpl; lia|].
    unfold shorter. simpl. intros a Ha'. lia. }
  assert (Hol : obj_loop_returns config (S fuel)).
  { intros children dict ts Hf. simpl.
    eapply outcome_bind; [apply current_type_returns|]. intros ty Hne.
    returns_step.
    { destruct ts; [now elim Hne|]. unfold shorter. simpl. lia. }
    blanks ws1 ts1 L1. token ts1 k kpos ts1'. simpl in L1.
    returns_step; [exact I|].
    blanks ws2 ts2 L2. token ts2 c cpos ts2'. simpl in L2.
    returns_step; [exact I|].
    blanks ws3 ts3 L3.
    eapply outcome_bind; [apply IHv; lia|]. intros [v ts4] L4.
    unfold shorter in L4. simpl in L4.
    returns_step; [exact I|].
    blanks ws5 ts5 L5. token ts5 s spos ts5'. simpl in L5.
    assert (Hrec : forall ch d ts6,
               (List.length ts6 <= List.length ts4)%nat ->
               outcome (obj_loop config fuel ch d ts6) (shorter (List.length ts))).
    { intros ch d ts6 L6. eapply outcome_weaken; [apply IHol; lia|].
      unfold shorter. intros a Ha'. lia. }
    assert (Htail : forall x,
               outcome (Ok x) (not_longer (List.length ts4)) ->
               outcome
                 (let '(ch, ts6) := x in
                  x0 <- _parse_non_json config ts6 ;;
                  let '(ws7, ts7) := x0 in
                  if allow_trailing_comma config
                  then ty0 <- current_type ts7 ;;
                       if TokenType_eqb ty0 RBRACE
                       then Ok (Object ((ch ++ ws7) ++ [RBrace])
                                  (dict_set dict (value k) (String_ (value k), v)),
                                advance ts7)
                       else obj_loop config fuel (ch ++ ws7)
                              (dict_set dict (value k) (String_ (value k), v)) ts7
                  else obj_loop config fuel (ch ++ ws7)
                         (dict_set dict (value k) (String_ (value k), v)) ts7)
                 (shorter (List.length ts))).
    { intros [ch ts6] L6. unfold not_longer in L6. simpl in L6.
      blanks ws7 ts7 L7.
      destruct (allow_trailing_comma config); [|apply Hrec; lia].
      eapply outcome_bind; [apply current_type_returns|]. intros ty0 Hne0.
      destruct (TokenType_eqb ty0 RBRACE); [|apply Hrec; lia].
      unfold shorter. simpl. destruct ts7; [now elim Hne0|]. simpl in *. lia. }
    destruct (TokenType_eqb (type s) COMMA); cbn [bind negb].
    { apply (Htail (_, _)). unfold not_longer. simpl. lia. }
    destruct (TokenType_eqb (type s) RBRACE); cbn [bind negb]; [|exact I].
    apply (Htail (_, _)). unfold not_longer. simpl. lia. }
  assert (Hal : array_loop_returns config (S fuel)).
  { intros children items ts Hf. simpl.
    eapply outcome_bind; [apply current_type_returns|]. intros ty Hne.
    returns_step.
    { destruct ts; [now elim Hne|]. unfold shorter. simpl. lia. }
    blanks ws1 ts1 L1.
    eapply outcome_bind; [apply IHv; lia|]. intros [v ts2] L2.
    unfold shorter in L2. simpl in L2.
    blanks ws3 ts3 L3. token ts3 s spos ts3'. simpl in L3.
    assert (Hrec : forall ch its ts6,
               (List.length ts6 <= List.length ts2)%nat ->
               outcome (array_loop config fuel ch its ts6) (shorter (List.length ts))).
    { intros ch its ts6 L6. eapply outcome_weaken; [apply IHal; lia|].
      unfold shorter. intros a Ha'. lia. }
    destruct (TokenType_eqb (type s) COMMA); cbn [bind negb].
    { apply Hrec. simpl. lia. }
    destruct (TokenType_eqb (type s) RBRACKET); cbn [bind negb]; [|exact I].
    apply Hrec. simpl. lia. }
  assert (Ha : array_returns config (S fuel)).
  { intros ts Hne Hf. simpl. destruct ts as [|t ts]; [now elim Hne|].
    simpl in Hf. eapply outcome_weaken; [apply IHal; simpl; lia|].
    unfold shorter. simpl. intros a Ha'. lia. }
  repeat split; assumption.
Qed.

Lemma parse_tokens_returns (ts : list PToken) :
  parse_tokens config (fuel_for ts) ts <> OutOfFuel.
Proof.
  destruct (parser_returns (fuel_for ts)) as (_ & Ho & _ & Ha & _).
  assert (H : outcome (parse_tokens config (fuel_for ts) ts) (fun _ => True)).
  { unfold parse_tokens. destruct (current ts); [|exact I].
    eapply outcome_bind; [apply _parse_non_json_returns|].
    intros [ws ts1] L. unfold not_longer in L. simpl in L.
    destruct (current ts1) as [[t pos]|] eqn:Hcur; [|exact I].
    eapply outcome_bind with (Q := fun _ => True).
    - destruct (TokenType_eqb (type t) LBRACE).
      + eapply outcome_weaken; [apply Ho; unfold fuel_for; lia | trivial].
      + destruct (TokenType_eqb (type t) LBRACKET); [|exact I].
        eapply outcome_weaken; [apply Ha|trivial].
        * destruct ts1; [discriminate|discriminate].
        * unfold fuel_for; lia.
    - intros [c ts2] _.
      eapply outcome_bind; [apply _parse_non_json_returns|].
      intros [ws2 ts3] _. now destruct (current ts3). }
  intros E. rewrite E in H. exact H.
Qed.

End ParserReturns.

(** ** Totality and the round trip *)

(** [parse] returns: a tree or an exception, whatever the text. *)
Lemma parse_returns (config : Config) (text : string) :
  parse config text <> OutOfFuel.
Proof.
  unfold parse. pose proof (tokenize_total text) as Ht.
  destruct (Lexer.tokenize text) as [tokens| |]; simpl;
    [apply parse_tokens_returns | discriminate | now elim Ht].
Qed.

(** C1, as the specification has it, fails: a backslash inside a string
    that does not stand before a quote is dropped by the scanner, so the
    tree of the text [{"a\b":1}] is written out as [{"ab":1}]. *)
Lemma round_trip_loses_backslash :
  exists root,
    parse (mkConfig false true) (lit "{'a\b':1}") = Ok root
    /\ to_alexson root = lit "{'ab':1}"
    /\ to_alexson root <> lit "{'a\b':1}".
Proof.
  eexists. split; [vm_compute; reflexivity|]. split; [reflexivity|].
  vm_compute. discriminate.
Qed.

(** C1, amended.  Round-trip identity: when comments are kept, every
    backslash inside a string of the text [T] stands immediately before a
    double quote and parsing [T] returns a tree, writing that tree out
    gives [T] back, character for character: blanks, comments and the
    text of each number included. *)
Theorem round_trip (config : Config) (text : string) (root : AlexsonNode) :
  keeps_comments config ->
  escapes_ok Code text = true ->
  parse config text = Ok root ->
  to_alexson root = text.
Proof.
  intros Hc Hok H. unfold parse in H.
  destruct (Lexer.tokenize text) as [tokens| |] eqn:Et; simpl in H; try discriminate.
  apply (parse_tokens_text config Hc) in H.
  rewrite H. now apply tokenize_text.
Qed.

Lemma round_trip_witness :
  keeps_comments (mkConfig false true)
  /\ escapes_ok Code test_parser_text = true
  /\ exists root,
       parse (mkConfig false true) test_parser_text = Ok root
       /\ to_alexson root = test_parser_text.
Proof.
  split; [reflexivity|]. split; [vm_compute; reflexivity|].
  destruct (parse (mkConfig false true) test_parser_text) as [root| |] eqn:E.
  - exists root. split; [reflexivity|].
    apply (round_trip (mkConfig false true) test_parser_text root);
      [reflexivity | vm_compute; reflexivity | exact E].
  - vm_compute in E. discriminate.
  - vm_compute in E. discriminate.
Defined.

(** ** Trailing commas *)

Section TrailingComma.

Variable comments : bool.

Local Abbreviation on := (mkConfig true comments).
Local Abbreviation off := (mkConfig false comments).

Local Open Scope list_scope.

Lemma agrees_refl {A : Type} (a : result A) : agrees a a.
Proof. now intros _. Qed.

Lemma agrees_bind {A B : Type} (m1 m2 : result A) (k1 k2 : A -> result B) :
  agrees m1 m2 -> (forall a, agrees (k1 a) (k2 a)) ->
  agrees (bind m1 k1) (bind m2 k2).
Proof.
  intros Hm Hk Hne. destruct m2 as [a| e |]; simpl in Hne.
  - rewrite Hm by discriminate. simpl. now apply Hk.
  - now rewrite Hm by discriminate.
  - now elim Hne.
Qed.

Lemma non_json_loop_option (ts : list PToken) (acc : list AlexsonNode) :
  non_json_loop on ts acc = non_json_loop off ts acc.
Proof.
  revert acc. induction ts as [|[t pos] ts IH]; intros acc; simpl; [reflexivity|].
  destruct (NON_JSON_TYPES (type t)); [apply IH | reflexivity].
Qed.

Lemma _parse_non_json_option (ts : list PToken) :
  _parse_non_json on ts = _parse_non_json off ts.
Proof.
  destruct ts; [reflexivity|]. apply non_json_loop_option.
Qed.

(** Leaving the loop on the closing brace, then testing for it: the test
    of the [while] does it anyway. *)
Lemma obj_loop_head (config : Config) (fuel : nat) (children : list AlexsonNode)
      (dict : Dict) (ts : list PToken) :
  (ty <- current_type ts ;;
   if TokenType_eqb ty RBRACE
   then Ok (Object (children ++ [RBrace]) dict, advance ts)
   else obj_loop config (S fuel) children dict ts)
  = obj_loop config (S fuel) children dict ts.
Proof.
  destruct (current_type ts) as [ty| |] eqn:E.
  - cbn [bind]. destruct (TokenType_eqb ty RBRACE) eqn:Ety; [|reflexivity].
    cbn [obj_loop]. rewrite E. cbn [bind]. now rewrite Ety.
  - cbn [bind obj_loop]. now rewrite E.
  - destruct ts as [|[t pos] ts]; discriminate.
Qed.

Ltac agrees_step :=
  match goal with
  | |- agrees ?a ?a => apply agrees_refl
  | |- agrees (bind (_parse_non_json on ?ts) _) (bind (_parse_non_json off ?ts) _) =>
      rewrite (_parse_non_json_option ts);
      apply agrees_bind; [apply agrees_refl|]; intros [? ?]; cbn beta iota
  | |- agrees (bind (current_type ?ts) _) (bind (current_type ?ts) _) =>
      apply agrees_bind; [apply agrees_refl|]; intros ?; cbn beta iota
  | |- agrees (match ?x with [] => _ | _ :: _ => _ end)
              (match ?x with [] => _ | _ :: _ => _ end) =>
      destruct x as [|[? ?] ?]; cbn beta iota
  | |- agrees (if ?b then _ else _) (if ?b then _ else _) => destruct b
  | |- agrees (match ?x with Some _ => _ | None => _ end)
              (match ?x with Some _ => _ | None => _ end) => destruct x
  end.

Lemma parser_option (fuel : nat) :
  (forall ts, agrees (parse_value on fuel ts) (parse_value off fuel ts))
  /\ (forall ts, agrees (_parse_obj on fuel ts) (_parse_obj off fuel ts))
  /\ (forall ch d ts, agrees (obj_loop on fuel ch d ts) (obj_loop off fuel ch d ts))
  /\ (forall ts, agrees (_parse_array on fuel ts) (_parse_array off fuel ts))
  /\ (forall ch it ts,
         agrees (array_loop on fuel ch it ts) (array_loop off fuel ch it ts)).
Proof.
  induction fuel as [|fuel (IHv & IHo & IHol & IHa & IHal)].
  { repeat split; intros; intros Hne; now elim Hne. }
  assert (Hol : forall ch d ts,
             agrees (obj_loop on (S fuel) ch d ts) (obj_loop off (S fuel) ch d ts)).
  { intros ch d ts. cbn [obj_loop]. repeat agrees_step.
    apply agrees_bind; [apply IHv|]. intros [v ts4]. cbn beta iota.
    repeat agrees_step.
    assert (Htail : forall x : list AlexsonNode * list PToken,
               agrees
                 (let '(ch', ts6) := x in
                  x0 <- _parse_non_json on ts6 ;;
                  let '(ws7, ts7) := x0 in
                  if allow_trailing_comma on
                  then ty0 <- current_type ts7 ;;
                       if TokenType_eqb ty0 RBRACE
                       then Ok (Object ((ch' ++ ws7) ++ [RBrace])
                                  (dict_set d (value t) (String_ (value t), v)),
                                advance ts7)
                       else obj_loop on fuel (ch' ++ ws7)
                              (dict_set d (value t) (String_ (value t), v)) ts7
                  else obj_loop on fuel (ch' ++ ws7)
                         (dict_set d (value t) (String_ (value t), v)) ts7)
                 (let '(ch', ts6) := x in
                  x0 <- _parse_non_json off ts6 ;;
                  let '(ws7, ts7) := x0 in
                  if allow_trailing_comma off
                  then ty0 <- current_type ts7 ;;
                       if TokenType_eqb ty0 RBRACE
                       then Ok (Object ((ch' ++ ws7) ++ [RBrace])
                                  (dict_set d (value t) (String_ (value t), v)),
                                advance ts7)
                       else obj_loop off fuel (ch' ++ ws7)
                              (dict_set d (value t) (String_ (value t), v)) ts7
                  else obj_loop off fuel (ch' ++ ws7)
                         (dict_set d (value t) (String_ (value t), v)) ts7)).
    { intros [ch' ts6]. agrees_step. cbn [allow_trailing_comma].
      intros Hne. destruct fuel as [|fuel']; [now elim Hne|].
      rewrite obj_loop_head. now apply IHol. }
    destruct (TokenType_eqb (type t1) COMMA); cbn [bind negb].
    { apply (Htail (_, _)). }
    destruct (TokenType_eqb (type t1) RBRACE); cbn [bind negb];
      [apply (Htail (_, _)) | apply agrees_refl]. }
  assert (Hal : forall ch it ts,
             agrees (array_loop on (S fuel) ch it ts) (array_loop off (S fuel) ch it ts)).
  { intros ch it ts. cbn [array_loop]. repeat agrees_step.
    apply agrees_bind; [apply IHv|]. intros [v ts2]. cbn beta iota.
    repeat agrees_step.
    destruct (TokenType_eqb (type t) COMMA); cbn [bind negb]; [apply IHal|].
    destruct (TokenType_eqb (type t) RBRACKET); cbn [bind negb];
      [apply IHal | apply agrees_refl]. }
  repeat split; try assumption.
  - intros ts. cbn [parse_value]. destruct ts as [|[t pos] ts]; [apply agrees_refl|].
    destruct (type t); try apply agrees_refl; [apply IHo | apply IHa].
  - intros ts. cbn [_parse_obj]. destruct ts as [|[t pos] ts]; [apply agrees_refl|].
    destruct (negb (TokenType_eqb (type t) LBRACE)); [apply agrees_refl | apply IHol].
  - intros ts. cbn [_parse_array]. apply IHal.
Qed.

Lemma parse_tokens_option (fuel : nat) (ts : list PToken) :
  agrees (parse_tokens on fuel ts) (parse_tokens off fuel ts).
Proof.
  destruct (parser_option fuel) as (_ & Ho & _ & Ha & _).
  unfold parse_tokens. destruct (current ts); [|apply agrees_refl].
  rewrite (_parse_non_json_option ts).
  apply agrees_bind; [apply agrees_refl|]. intros [ws ts1]. cbn beta iota.
  destruct (current ts1) as [[t pos]|]; [|apply agrees_refl].
  apply agrees_bind.
  - destruct (TokenType_eqb (type t) LBRACE); [apply Ho|].
    destruct (TokenType_eqb (type t) LBRACKET); [apply Ha | apply agrees_refl].
  - intros [c ts2]. rewrite (_parse_non_json_option ts2). apply agrees_refl.
Qed.

(** The outcome of [parse] does not depend on [allow_trailing_comma]. *)
Lemma parse_ignores_allow_trailing_comma (text : string) :
  parse on text = parse off text.
Proof.
  pose proof (parse_returns off text) as Hne. revert Hne. unfold parse.
  destruct (Lexer.tokenize text) as [tokens| |]; cbn [bind]; try reflexivity.
  intros Hne. now apply parse_tokens_option.
Qed.

End TrailingComma.

(** C2.  With [allow_trailing_comma] switched off the texts [{"a":1,}] and
    [[1,]] are still parsed, and written out unchanged: the test of the
    [while] leaves the loop on the closing token whether or not the option
    is set.  No text is parsed differently with the option on and off. *)
Theorem trailing_comma_accepted_when_disabled (comments : bool) :
  (exists root,
      parse (mkConfig false comments) (lit "{'a':1,}") = Ok root
      /\ to_alexson root = lit "{'a':1,}")
  /\ (exists root,
         parse (mkConfig false comments) "[1,]" = Ok root
         /\ to_alexson root = "[1,]")
  /\ (forall text,
         parse (mkConfig true comments) text = parse (mkConfig false comments) text).
Proof.
  split; [|split; [|apply parse_ignores_allow_trailing_comma]];
    destruct comments; eexists; split;
    try (vm_compute; reflexivity); reflexivity.
Qed.

(** ** Assignment through the indices *)

(** C3.  In the tree of [{"a": "a"}] the assignment [root["a"] = String("b")]
    replaces the first child equal to the old value, which is the key:
    the text becomes [{"b": "a"}], not [{"a": "b"}]. *)
Theorem object_setitem_replaces_first_equal_child (config : Config) :
  exists root root',
    parse config (lit "{'a': 'a'}") = Ok root
    /\ Root_setitem root (KStr "a") (String_ "b") = Ok root'
    /\ to_alexson root' = lit "{'b': 'a'}"
    /\ to_alexson root' <> lit "{'a': 'b'}".
Proof.
  destruct config as [[] []]; eexists; eexists;
    (split; [vm_compute; reflexivity|]);
    (split; [vm_compute; reflexivity|]);
    (split; [reflexivity|]); vm_compute; discriminate.
Qed.

(** C4.  In the tree of [[1]] the assignment [root[0] = Number("2")]
    changes [items] only: the children, and so the text, stay [[1]]. *)
Theorem array_setitem_leaves_children (config : Config) :
  exists root two root',
    parse config "[1]" = Ok root
    /\ mkNumber "2" = Ok two
    /\ Root_setitem root (KInt 0) two = Ok root'
    /\ Root_getitem root' (KInt 0) = Ok two
    /\ to_alexson root' = "[1]"
    /\ to_alexson root' <> "[2]".
Proof.
  destruct config as [[] []]; eexists; eexists; eexists;
    (split; [vm_compute; reflexivity|]);
    (split; [vm_compute; reflexivity|]);
    (split; [vm_compute; reflexivity|]);
    (split; [vm_compute; reflexivity|]);
    (split; [reflexivity|]); vm_compute; discriminate.
Qed.

(** ** Duplicate keys *)






(** ** Containers that hold blanks only *)

(** C6.  The texts [{ }] and [[ ]] are rejected: after the blank the
    loop of [_parse_obj] asks for a key, and that of [_parse_array] for a
    value, without looking for the closing token again. *)
Theorem blank_container_rejected (config : Config) :
  parse config "{ }" = Raise (AlexsonParserException "Unexpected token RBRACE" 1 3)
  /\ parse config "[ ]" = Raise (AlexsonParserException "Unexpected token RBRACKET" 1 3)
  /\ (exists root, parse config "{}" = Ok root /\ to_alexson root = "{}")
  /\ (exists root, parse config "[]" = Ok root /\ to_alexson root = "[]").
Proof.
  destruct config as [[] []]; repeat split;
    try (vm_compute; reflexivity);
    eexists; split; vm_compute; reflexivity.
Qed.

(** ** Failures that carry no position *)

(** C7.  The unclosed object [{] ends in the [AttributeError] of
    [None.type], and the text [{} 1], with content after the root, in the
    [AssertionError] of the last line of [parse]: neither is an
    [AlexsonParserException] or an [AlexsonLexicalError]. *)
Theorem malformed_input_unpositioned_failure (config : Config) :
  parse config "{" = Raise AttributeError
  /\ parse config "{} 1" = Raise AssertionError.
Proof.
  destruct config as [[] []]; split; vm_compute; reflexivity.
Qed.

(** ** Numbers *)

(** *** [float] on the text of a [NUMBER] token *)

Lemma number_char_cases (c : ascii) :
  number_char c = true ->
  float_space c = false /\ Ascii.eqb c "_" = false
  /\ Ascii.eqb c "-" = false /\ Ascii.eqb c "+" = false
  /\ Ascii.eqb (lower c) "i" = false /\ Ascii.eqb (lower c) "n" = false
  /\ Ascii.eqb (lower c) "e" = false.
Proof.
  destruct c as [[] [] [] [] [] [] [] []]; try discriminate;
    intros _; repeat split; reflexivity.
Qed.

Lemma lstrip_number_text (s : string) :
  string_forall number_char s = true -> lstrip s = s.
Proof.
  destruct s as [|c s]; [reflexivity|]. simpl.
  intros H. apply andb_prop in H. destruct H as [Hc _].
  destruct (number_char_cases c Hc) as (-> & _). reflexivity.
Qed.

Lemma rstrip_number_text (s : string) :
  string_forall number_char s = true -> rstrip s = s.
Proof.
  induction s as [|c s IH]; [reflexivity|]. simpl.
  intros H. apply andb_prop in H. destruct H as [Hc Hs].
  rewrite (IH Hs). destruct (number_char_cases c Hc) as (-> & _).
  now destruct s.
Qed.

Lemma drop_underscores_number_text (s : string) (prev : option ascii) :
  is_underscore prev = false ->
  string_forall number_char s = true -> drop_underscores prev s = Some s.
Proof.
  revert prev. induction s as [|c s IH]; intros prev Hp; simpl.
  - now rewrite Hp.
  - intros H. apply andb_prop in H. destruct H as [Hc Hs].
    destruct (number_char_cases c Hc) as (_ & Hu & _).
    rewrite Hu, Hp. cbn [andb]. now rewrite (IH (Some c) Hu Hs).
Qed.

Lemma read_sign_number_text (s : string) :
  string_forall number_char s = true -> read_sign s = (false, s).
Proof.
  destruct s as [|c s]; [reflexivity|]. simpl.
  intros H. apply andb_prop in H. destruct H as [Hc _].
  destruct (number_char_cases c Hc) as (_ & _ & -> & -> & _). reflexivity.
Qed.

Lemma number_text_no_name (s : string) :
  string_forall number_char s = true ->
  (String.eqb (lower_str s) "inf" || String.eqb (lower_str s) "infinity") = false
  /\ String.eqb (lower_str s) "nan" = false.
Proof.
  destruct s as [|c s]; [now split|]. simpl.
  intros H. apply andb_prop in H. destruct H as [Hc _].
  destruct (number_char_cases c Hc) as (_ & _ & _ & _ & -> & -> & _). now split.
Qed.

Lemma read_numeral_frac_len (s : string) (a b : numeral) :
  read_numeral s a = Some b -> 0 <= frac_len a -> 0 <= frac_len b.
Proof.
  revert a. induction s as [|c s IH]; intros a; simpl.
  - destruct (seen_digit a); [|discriminate]. now intros [= <-].
  - destruct (is_ascii_digit c).
    + intros H Ha. apply (IH _ H). simpl. destruct (seen_dot a); lia.
    + destruct (Ascii.eqb c "." && negb (seen_dot a)); [|discriminate].
      intros H Ha. exact (IH _ H Ha).
Qed.

(** The numeral of a text with a character that [float] does not take
    as part of it is not read, and what follows the numeral is no
    exponent. *)
Lemma span_mantissa_number_text (s : string) (a : numeral) :
  string_forall number_char s = true ->
  span_mantissa s = (s, "")
  \/ (read_numeral s a = None
      /\ read_exponent (snd (span_mantissa s)) = None).
Proof.
  revert a. induction s as [|c s IH]; intros a; [now left|]. simpl.
  intros H. apply andb_prop in H. destruct H as [Hc Hs].
  destruct (is_ascii_digit c) eqn:Ed; cbn [orb].
  - destruct (IH (mkNumeral (10 * digits_int a + digit_val c)
                    (if seen_dot a then frac_len a + 1 else frac_len a)
                    (seen_dot a) true) Hs) as [E|[E1 E2]].
    + left. now rewrite E.
    + right. destruct (span_mantissa s). now split.
  - destruct (Ascii.eqb c ".") eqn:Edot.
    + destruct (seen_dot a) eqn:Esd; cbn [andb negb].
      * destruct (IH a Hs) as [E|[_ E2]].
        -- left. now rewrite E.
        -- right. destruct (span_mantissa s). now split.
      * destruct (IH (mkNumeral (digits_int a) (frac_len a) true (seen_digit a)) Hs)
          as [E|[E1 E2]].
        -- left. now rewrite E.
        -- right. destruct (span_mantissa s). now split.
    + right. split; [reflexivity|]. cbn [snd read_exponent].
      destruct (number_char_cases c Hc) as (_ & _ & _ & _ & _ & _ & ->). reflexivity.
Qed.

Lemma round_scaled_no_exponent (n k : Z) :
  0 <= k -> round_scaled false n k 0 = round_decimal n k.
Proof.
  intros Hk. unfold round_scaled. destruct (0 <=? 0 - k) eqn:E.
  - apply Z.leb_le in E. assert (k = 0) as -> by lia.
    simpl (0 - 0). now rewrite Z.pow_0_r, Z.mul_1_r.
  - now replace (- (0 - k)) with k by lia.
Qed.

(** On the text of a [NUMBER] token [float] is the function that
    [parse_value] is modelled with. *)
Lemma py_float_number_text (s : string) :
  string_forall number_char s = true -> py_float s = float_of_str s.
Proof.
  intros H. unfold py_float, float_of_str.
  rewrite (lstrip_number_text s H), (rstrip_number_text s H).
  rewrite (drop_underscores_number_text s None eq_refl H).
  rewrite (read_sign_number_text s H).
  destruct (number_text_no_name s H) as [-> ->].
  destruct (span_mantissa_number_text s (mkNumeral 0 0 false false) H) as [E|[E1 E2]].
  - rewrite E. cbn [read_exponent].
    destruct (read_numeral s (mkNumeral 0 0 false false)) as [a|] eqn:Ea; [|reflexivity].
    rewrite round_scaled_no_exponent; [reflexivity|].
    apply (read_numeral_frac_len _ _ _ Ea). simpl. lia.
  - rewrite E1. destruct (span_mantissa s) as [m r]. cbn [snd] in E2. rewrite E2.
    now destruct (read_numeral m (mkNumeral 0 0 false false)).
Qed.

(** The [Number] that [parse_value] makes of a [NUMBER] token is
    [Number(token.value)]. *)
Lemma parse_value_number (config : Config) (fuel : nat) (t : Token)
      (pos : Position) (ts : list PToken) :
  type t = NUMBER ->
  string_forall number_char (value t) = true ->
  parse_value config (S fuel) ((t, pos) :: ts)
  = match mkNumber (value t) with
    | Ok n => Ok (n, ts)
    | _ => ParserException ("Invalid number value " ++ value t)%string pos
    end.
Proof.
  intros Ht Hv. cbn [parse_value]. rewrite Ht. unfold mkNumber.
  rewrite (py_float_number_text _ Hv).
  now destruct (float_of_str (value t)).
Qed.

(** *** Equality and serialization *)

Lemma SFsub_diag (x : float) :
  finite x = true -> SFsub prec emax x x = S754_zero false.
Proof.
  destruct x as [s| | |s m e]; try discriminate; intros _.
  - now destruct s.
  - unfold SFsub. rewrite Z.sub_diag. reflexivity.
Qed.

Lemma mkNumber_Ok (s : string) (a : AlexsonNode) :
  mkNumber s = Ok a -> exists x, py_float s = Some x /\ a = Number x s.
Proof.
  unfold mkNumber. destruct (py_float s) as [x|]; [|discriminate].
  intros [= <-]. now exists x.
Qed.

(** C8.  Number tolerance.  [Number("2.00")] and [Number("2")] both hold
    the float 2 and are equal, and are written out as [2.00] and as [2],
    the texts they were made from.  In general, for texts [s1] and [s2]
    that [float] accepts, [Number(s1) == Number(s2)] holds exactly when
    the absolute value of [float(s1) - float(s2)] is below [1e-6], so it
    holds whenever the two floats are the same finite number, and each
    node is written out as its text.  The bound is strict and is the
    float of [1e-6]: a difference of [1e-6] or more makes two numbers
    unequal, an infinity is not equal to itself, and a text that [float]
    rejects raises [ValueError]. *)
Theorem number_tolerance :
  (exists a b,
      mkNumber "2.00" = Ok a /\ mkNumber "2" = Ok b
      /\ a = Number (S754_finite false 4503599627370496 (-51)) "2.00"
      /\ b = Number (S754_finite false 4503599627370496 (-51)) "2"
      /\ node_eq a b = true
      /\ to_alexson a = "2.00" /\ to_alexson b = "2"
      /\ to_alexson a <> to_alexson b)
  /\ (forall s1 s2 a b,
         mkNumber s1 = Ok a -> mkNumber s2 = Ok b ->
         exists x y,
           py_float s1 = Some x /\ py_float s2 = Some y
           /\ (node_eq a b = true
               <-> SFltb (SFabs (SFsub prec emax x y)) tolerance = true)
           /\ (x = y -> finite x = true -> node_eq a b = true)
           /\ to_alexson a = s1 /\ to_alexson b = s2)
  /\ py_float "1e-6" = Some tolerance
  /\ Number_eq "2" "3" = Ok false
  /\ Number_eq "2.000001" "2" = Ok false
  /\ Number_eq "2.0000009" "2" = Ok true
  /\ Number_eq "0.000001" "0" = Ok false
  /\ Number_eq "0.0000009" "0" = Ok true
  /\ Number_eq "-1" "-1.0000001" = Ok true
  /\ Number_eq "1e3" "1000" = Ok true
  /\ Number_eq "inf" "inf" = Ok false
  /\ Number_eq "2" "two" = Raise ValueError.
Proof.
  split.
  { eexists. eexists. split; [vm_compute; reflexivity|].
    split; [vm_compute; reflexivity|]. split; [reflexivity|].
    split; [reflexivity|]. split; [vm_compute; reflexivity|].
    split; [reflexivity|]. split; [reflexivity|]. simpl. discriminate. }
  split.
  { intros s1 s2 a b Ha Hb.
    destruct (mkNumber_Ok _ _ Ha) as (x & Hx & ->).
    destruct (mkNumber_Ok _ _ Hb) as (y & Hy & ->).
    exists x, y. split; [exact Hx|]. split; [exact Hy|].
    split; [reflexivity|]. split; [|split; reflexivity].
    intros <- Hfin. cbn [node_eq]. now rewrite (SFsub_diag _ Hfin). }
  repeat split; vm_compute; reflexivity.
Qed.

Lemma number_tolerance_witness :
  exists x y,
    py_float "2.0000009" = Some x /\ py_float "2" = Some y
    /\ (node_eq (Number (S754_finite false 4503601653990328 (-51)) "2.0000009")
                (Number (S754_finite false 4503599627370496 (-51)) "2") = true
        <-> SFltb (SFabs (SFsub prec emax x y)) tolerance = true)
    /\ (x = y -> finite x = true
        -> node_eq (Number (S754_finite false 4503601653990328 (-51)) "2.0000009")
                   (Number (S754_finite false 4503599627370496 (-51)) "2") = true)
    /\ to_alexson (Number (S754_finite false 4503601653990328 (-51)) "2.0000009")
       = "2.0000009"
    /\ to_alexson (Number (S754_finite false 4503599627370496 (-51)) "2") = "2".
Proof.
  apply (proj1 (proj2 number_tolerance) "2.0000009" "2"); vm_compute; reflexivity.
Defined.

(** ** Blanks and comments at the end of the tokens *)

Lemma non_json_loop_all_blank (config : Config) (ts : list PToken)
      (acc : list AlexsonNode) :
  Forall blank ts -> non_json_loop config ts acc = Raise AttributeError.
Proof.
  intros Hb. revert acc.
  induction Hb as [|[b pos] ts Hblank _ IH]; intros acc; simpl; [reflexivity|].
  unfold blank in Hblank. simpl in Hblank. rewrite Hblank. apply IH.
Qed.

(** C9.  Parsing [{"a":1} # note] followed by a newline raises
    [AttributeError], with comments kept or dropped: [_parse_non_json]
    reads the type of the current token once more after the last one.
    Where a token follows, as in [{"a":1 # note], newline, [}], the comment
    is kept as a node and written out, or dropped, as the option says. *)
Theorem comment_at_end_of_input (trailing : bool) :
  parse (mkConfig trailing true) (lit "{'a':1} # note" ++ nl) = Raise AttributeError
  /\ parse (mkConfig trailing false) (lit "{'a':1} # note" ++ nl) = Raise AttributeError
  /\ (exists root,
         parse (mkConfig trailing true) (lit "{'a':1 # note" ++ nl ++ "}") = Ok root
         /\ to_alexson root = lit "{'a':1 # note" ++ nl ++ "}")
  /\ (exists root,
         parse (mkConfig trailing false) (lit "{'a':1 # note" ++ nl ++ "}") = Ok root
         /\ to_alexson root = lit "{'a':1 " ++ nl ++ "}").
Proof.
  destruct trailing; repeat split;
    try (vm_compute; reflexivity);
    eexists; split; vm_compute; reflexivity.
Qed.

(** C10.  A text whose tokens are all blanks or comments, and not empty,
    is not parsed to a [Root]: [parse] raises [AttributeError] in its first
    call of [_parse_non_json]. *)
Theorem blank_only_input_crashes (config : Config) (text : string)
        (tokens : list PToken) :
  Lexer.tokenize text = Ok tokens ->
  tokens <> [] ->
  Forall blank tokens ->
  parse config text = Raise AttributeError.
Proof.
  intros Ht Hne Hb. unfold parse. rewrite Ht. simpl. unfold parse_tokens.
  destruct tokens as [|t ts]; [now elim Hne|]. simpl current. cbn iota.
  unfold _parse_non_json. now rewrite non_json_loop_all_blank.
Qed.

Lemma blank_only_input_crashes_witness :
  parse (mkConfig false true) (" # c" ++ nl) = Raise AttributeError.
Proof.
  apply (blank_only_input_crashes (mkConfig false true) (" # c" ++ nl)
           [(mkToken SPACES " ", (1, 1)); (mkToken COMMENT "# c", (2, 0));
            (mkToken NEWLINES nl, (2, 1))]).
  - vm_compute. reflexivity.
  - discriminate.
  - repeat constructor.
Defined.

(** * Further properties *)

(** ** The shape of the tree of a text *)

Section RootShape.

Variable config : Config.

Local Open Scope list_scope.

Lemma non_json_nodes_blank (t : Token) :
  Forall (fun n => isinstance_NonJson n = true) (non_json_nodes config t).
Proof.
  unfold non_json_nodes.
  destruct (type t); try constructor;
    try (apply Forall_forall; intros n Hn; apply repeat_spec in Hn; now subst n).
  destruct (allow_comments config); repeat constructor.
Qed.

Lemma non_json_loop_rest (ts ts' : list PToken) (acc ws : list AlexsonNode) :
  non_json_loop config ts acc = Ok (ws, ts') ->
  ts' <> []
  /\ (Forall (fun n => isinstance_NonJson n = true) acc ->
      Forall (fun n => isinstance_NonJson n = true) ws).
Proof.
  revert acc. induction ts as [|[t pos] ts IH]; intros acc H; simpl in H.
  - discriminate.
  - destruct (NON_JSON_TYPES (type t)).
    + apply IH in H. destruct H as [Hne Hall]. split; [exact Hne|].
      intros Hacc. apply Hall. apply Forall_app. split; [exact Hacc|].
      apply non_json_nodes_blank.
    + inversion H; subst. split; [discriminate | trivial].
Qed.

(** [_parse_non_json] returns blanks and comments only; it stops on a
    token, or was called with none left and returns nothing. *)
Lemma _parse_non_json_rest (ts ts' : list PToken) (ws : list AlexsonNode) :
  _parse_non_json config ts = Ok (ws, ts') ->
  Forall (fun n => isinstance_NonJson n = true) ws
  /\ (ts' = [] -> ts = [] /\ ws = []).
Proof.
  destruct ts as [|t ts]; unfold _parse_non_json; intros H.
  - inversion H; subst. now repeat split.
  - apply non_json_loop_rest in H. destruct H as [Hne Hall]. split.
    + apply Hall. constructor.
    + intros E. now elim Hne.
Qed.

Lemma obj_loop_kind (fuel : nat) (children : list AlexsonNode) (dict : Dict)
      (ts ts' : list PToken) (v : AlexsonNode) :
  obj_loop config fuel children dict ts = Ok (v, ts') ->
  exists children' dict', v = Object children' dict'.
Proof.
  revert children dict ts.
  induction fuel as [|fuel IH]; intros children dict ts H; [discriminate|].
  cbn [obj_loop] in H.
  destruct (current_type ts) as [ty| |]; cbn [bind] in H; try discriminate.
  destruct (TokenType_eqb ty RBRACE).
  { inversion H. eauto. }
  destruct (_parse_non_json config ts) as [[ws1 ts1]| |]; cbn [bind] in H;
    try discriminate. cbn beta iota in H.
  destruct ts1 as [|[k kpos] ts1]; [discriminate|].
  destruct (negb (TokenType_eqb (type k) STRING)); [discriminate|].
  destruct (_parse_non_json config (advance ((k, kpos) :: ts1))) as [[ws2 ts2]| |];
    cbn [bind] in H; try discriminate. cbn beta iota in H.
  destruct ts2 as [|[c cpos] ts2]; [discriminate|].
  destruct (negb (TokenType_eqb (type c) COLON)); [discriminate|].
  destruct (_parse_non_json config (advance ((c, cpos) :: ts2))) as [[ws3 ts3]| |];
    cbn [bind] in H; try discriminate. cbn beta iota in H.
  destruct (parse_value config fuel ts3) as [[val ts4]| |];
    cbn [bind] in H; try discriminate. cbn beta iota in H.
  destruct (dict_contains dict (value k)); [discriminate|].
  destruct (_parse_non_json config ts4) as [[ws5 ts5]| |];
    cbn [bind] in H; try discriminate. cbn beta iota in H.
  destruct ts5 as [|[s spos] ts5]; [discriminate|].
  match type of H with
  | bind ?m _ = _ => destruct m as [[ch6 ts6]| |]
  end; cbn [bind] in H; try discriminate. cbn beta iota in H.
  destruct (_parse_non_json config ts6) as [[ws7 ts7]| |];
    cbn [bind] in H; try discriminate. cbn beta iota in H.
  destruct (allow_trailing_comma config); [|now apply IH in H].
  destruct (current_type ts7) as [ty7| |]; cbn [bind] in H; try discriminate.
  destruct (TokenType_eqb ty7 RBRACE); [|now apply IH in H].
  inversion H. eauto.
Qed.

Lemma array_loop_kind (fuel : nat) (children items : list AlexsonNode)
      (ts ts' : list PToken) (v : AlexsonNode) :
  array_loop config fuel children items ts = Ok (v, ts') ->
  exists children' items', v = Array children' items'.
Proof.
  revert children items ts.
  induction fuel as [|fuel IH]; intros children items ts H; [discriminate|].
  cbn [array_loop] in H.
  destruct (current_type ts) as [ty| |]; cbn [bind] in H; try discriminate.
  destruct (TokenType_eqb ty RBRACKET).
  { inversion H. eauto. }
  destruct (_parse_non_json config ts) as [[ws1 ts1]| |]; cbn [bind] in H;
    try discriminate. cbn beta iota in H.
  destruct (parse_value config fuel ts1) as [[val ts2]| |];
    cbn [bind] in H; try discriminate. cbn beta iota in H.
  destruct (_parse_non_json config ts2) as [[ws3 ts3]| |];
    cbn [bind] in H; try discriminate. cbn beta iota in H.
  destruct ts3 as [|[s spos] ts3]; [discriminate|].
  match type of H with
  | bind ?m _ = _ => destruct m as [[ch4 ts4]| |]
  end; cbn [bind] in H; try discriminate. cbn beta iota in H.
  now apply IH in H.
Qed.

Lemma _parse_obj_kind (fuel : nat) (ts ts' : list PToken) (v : AlexsonNode) :
  _parse_obj config fuel ts = Ok (v, ts') ->
  exists children dict, v = Object children dict.
Proof.
  destruct fuel; [discriminate|]. cbn [_parse_obj].
  destruct ts as [|[t pos] ts]; [discriminate|].
  destruct (negb (TokenType_eqb (type t) LBRACE)); [discriminate|].
  apply obj_loop_kind.
Qed.

Lemma _parse_array_kind (fuel : nat) (ts ts' : list PToken) (v : AlexsonNode) :
  _parse_array config fuel ts = Ok (v, ts') ->
  exists children items, v = Array children items.
Proof.
  destruct fuel; [discriminate|]. cbn [_parse_array]. apply array_loop_kind.
Qed.

Lemma parse_tokens_shape (fuel : nat) (ts : list PToken) (root : AlexsonNode) :
  parse_tokens config fuel ts = Ok root ->
  (ts = [] /\ root = Root [] None)
  \/ (exists ws c,
         root = Root (ws ++ [c]) None
         /\ Forall (fun n => isinstance_NonJson n = true) ws
         /\ is_container c = true).
Proof.
  unfold parse_tokens. destruct ts as [|t0 ts0] eqn:Ets; cbn [current hd_error].
  { intros H. inversion H. now left. }
  rewrite <- Ets. intros H. right.
  destruct (_parse_non_json config ts) as [[ws ts1]| |] eqn:E1;
    cbn [bind] in H; try discriminate. cbn beta iota in H.
  destruct (_parse_non_json_rest _ _ _ E1) as [Hws Hend].
  destruct ts1 as [|[t pos] ts1].
  { destruct (Hend eq_refl) as [E _]. rewrite Ets in E. discriminate. }
  cbn [current hd_error] in H.
  match type of H with
  | bind ?m _ = _ => destruct m as [[c ts2]| |] eqn:E2
  end; cbn [bind] in H; try discriminate. cbn beta iota in H.
  assert (Hc : is_container c = true).
  { destruct (TokenType_eqb (type t) LBRACE).
    - apply _parse_obj_kind in E2. destruct E2 as (ch & d & ->). reflexivity.
    - destruct (TokenType_eqb (type t) LBRACKET); [|discriminate].
      apply _parse_array_kind in E2. destruct E2 as (ch & it & ->). reflexivity. }
  destruct (_parse_non_json config ts2) as [[ws2 ts3]| |] eqn:E3;
    cbn [bind] in H; try discriminate. cbn beta iota in H.
  destruct (_parse_non_json_rest _ _ _ E3) as [_ Hend3].
  destruct ts3; cbn [current hd_error] in H; [|discriminate].
  destruct (Hend3 eq_refl) as [_ ->]. inversion H; subst.
  exists ws, c. now rewrite app_nil_r.
Qed.

End RootShape.

Lemma tokenize_loop_extends (fuel : nat) (l : Lexer.Lexer) (acc toks : list PToken) :
  Lexer.tokenize_loop fuel l acc = Ok toks -> exists more, toks = (acc ++ more)%list.
Proof.
  revert l acc. induction fuel as [|fuel IH]; intros l acc H; simpl in H;
    destruct (Lexer.current_char l) as [c|] eqn:Hc; try discriminate;
    try (inversion H; exists []; now rewrite app_nil_r).
  destruct (Lexer.next_token l) as [[o l1]| |] eqn:E; cbn [bind] in H;
    try discriminate. cbn beta iota in H.
  destruct (next_token_inv _ _ _ _ Hc E) as (t & pos & -> & _).
  apply IH in H. destruct H as [more ->].
  exists ((t, pos) :: more). now rewrite <- app_assoc.
Qed.

(** Only the empty text has no token. *)
Lemma tokenize_nil (text : string) : Lexer.tokenize text = Ok [] -> text = "".
Proof.
  unfold Lexer.tokenize. destruct text as [|c text]; [reflexivity|].
  intros H. exfalso. cbn [String.length Lexer.tokenize_loop] in H.
  change (Lexer.current_char (Lexer.Lexer_init (String c text))) with (Some c) in H.
  cbn beta iota in H.
  destruct (Lexer.next_token (Lexer.Lexer_init (String c text))) as [[o l1]| |] eqn:E;
    cbn [bind] in H; try discriminate. cbn beta iota in H.
  destruct (next_token_inv (Lexer.Lexer_init (String c text)) _ _ c eq_refl E)
    as (t & pos & -> & _).
  apply tokenize_loop_extends in H. destruct H as [more H]. discriminate.
Qed.

(** X1.  The tree of a text is a [Root] with no cached primary container
    that is empty, and then the text is empty, or holds blanks and
    comments followed by one [Object] or [Array], its last child: [parse]
    never returns a root with anything after the container. *)
Theorem parse_root_shape (config : Config) (text : string) (root : AlexsonNode) :
  parse config text = Ok root ->
  (text = "" /\ root = Root [] None)
  \/ (exists ws c,
         root = Root (ws ++ [c]) None
         /\ Forall (fun n => isinstance_NonJson n = true) ws
         /\ is_container c = true).
Proof.
  unfold parse. intros H.
  destruct (Lexer.tokenize text) as [tokens| |] eqn:Et; cbn [bind] in H;
    try discriminate.
  apply parse_tokens_shape in H. destruct H as [[-> ->]|H]; [left|now right].
  split; [now apply tokenize_nil | reflexivity].
Qed.

Lemma parse_root_shape_witness :
  exists root,
    parse (mkConfig false true) (" " ++ nl ++ lit "{'a':[1]}") = Ok root
    /\ ((" " ++ nl ++ lit "{'a':[1]}" = "" /\ root = Root [] None)
        \/ (exists ws c,
               root = Root (ws ++ [c]) None
               /\ Forall (fun n => isinstance_NonJson n = true) ws
               /\ is_container c = true)).
Proof.
  destruct (parse (mkConfig false true) (" " ++ nl ++ lit "{'a':[1]}"))
    as [root| |] eqn:E.
  - exists root. split; [reflexivity|].
    exact (parse_root_shape _ _ root E).
  - vm_compute in E. discriminate.
  - vm_compute in E. discriminate.
Defined.
